(** * apiClient: the retry loop and the single-attempt send

    A shallow embedding of [src/apiClient.go] (package [apiClient]).

    The package talks to the outside world through a handful of library
    calls: [json.Marshal], [http.NewRequest], [http.Client.Do],
    [ioutil.ReadAll], [Body.Close], [time.Sleep] and [fmt.Printf].  They are
    taken as the environment of the development (the class [Env]); every
    call is recorded in a trace so that the number and the order of attempts,
    sleeps and diagnostic lines can be stated. *)

From Stdlib Require Import ZArith List Bool Lia Permutation.
From Stdlib.Strings Require Import String Ascii Byte.
Import ListNotations.
Local Open Scope Z_scope.

(** ** Go's [int]

    [Client.MaxRetries] and the loop counter [attempt] are Go [int]s: 64-bit
    two's-complement integers on the usual platforms, and [attempt++] wraps
    around on overflow. *)

Definition intSize : Z := 64.
Definition maxInt : Z := 2 ^ (intSize - 1) - 1.
Definition minInt : Z := - 2 ^ (intSize - 1).

Definition int_range (z : Z) : Prop := minInt <= z <= maxInt.

Definition int_wrap (z : Z) : Z := (z - minInt) mod 2 ^ intSize + minInt.

(** [attempt++] *)
Definition int_incr (z : Z) : Z := int_wrap (z + 1).

(** ** [time.Duration]: a count of nanoseconds. *)

Definition Duration : Type := Z.
Definition time_Second : Duration := 1000000000.

(** ** The parts of [net/http] the package touches *)

Module http.

(** [http.Header] is a [map[string][]string]. *)
Definition Header : Type := list (string * list string).

Module Client.
Record t : Type := mk { Timeout : Duration }.
End Client.

Module Request.
(** [URL] stands for [request.URL.String()]. *)
Record t : Type := mk
  { Method : string;
    URL : string;
    Header : http.Header;
    Body : list byte }.
End Request.

Module Response.
Record t (ReadCloser : Type) : Type := mk
  { Status : string;
    StatusCode : Z;
    Header : http.Header;
    Body : ReadCloser }.
Arguments mk {ReadCloser}.
Arguments Status {ReadCloser}.
Arguments StatusCode {ReadCloser}.
Arguments Header {ReadCloser}.
Arguments Body {ReadCloser}.
End Response.

End http.

(** ** The package's own types *)

(** [type Client struct] *)
Record Client : Type := mkClient
  { BaseURL : string;
    HTTPClient : http.Client.t;
    Debug : bool;
    MaxRetries : Z;
    RetryDelay : Duration }.

(** [func NewClient] *)
Definition NewClient (baseURL : string) (debug : bool) (maxRetries : Z)
    (retryDelay : Duration) : Client :=
  {| BaseURL := baseURL;
     HTTPClient := http.Client.mk (10 * time_Second);
     Debug := debug;
     MaxRetries := maxRetries;
     RetryDelay := retryDelay |}.

(** [type APIRequest struct].  [Headers] lists the entries of the Go map in
    the order in which [range] visits them; [Body] is the [interface{}]
    field, [None] being the nil interface. *)
Module APIRequest.
Record t (any : Type) : Type := mk
  { Method : string;
    Endpoint : string;
    Headers : list (string * string);
    Body : option any }.
Arguments mk {any}.
Arguments Method {any}.
Arguments Endpoint {any}.
Arguments Headers {any}.
Arguments Body {any}.
End APIRequest.

(** [type APIResponse struct] *)
Module APIResponse.
Record t : Type := mk
  { StatusCode : Z;
    Headers : http.Header;
    Body : list byte }.
End APIResponse.

(** [fmt.Sprintf("%s%s", a, b)] *)
Definition Sprintf_ss (a b : string) : string := String.append a b.

(** The line feed ending every [Printf] format of the package. *)
Definition LF : string := String (ascii_of_nat 10) EmptyString.

(** [fmt.Sprintf(prefix + "%s\n", arg)] *)
Definition Sprintf_line (prefix arg : string) : string :=
  String.append prefix (String.append arg LF).

Declare Scope go_scope.
Delimit Scope go_scope with go.

(** ** The environment

    Dynamic values carried by [interface{}], Go [error] values, the state of
    everything outside the process (servers, network, connection pool),
    response body streams, and the library calls that act on them. *)

Class Env : Type :=
  { any : Type;
    error : Type;
    World : Type;
    ReadCloser : Type;
    (** [json.Marshal] *)
    json_Marshal : any -> error + list byte;
    (** [http.NewRequest(method, url, bytes.NewBuffer(body))] *)
    http_NewRequest : string -> string -> list byte -> error + http.Request.t;
    (** [textproto.CanonicalMIMEHeaderKey], applied by [Header.Set] *)
    CanonicalMIMEHeaderKey : string -> string;
    (** [http.Client.Do] *)
    Client_Do :
      http.Client.t -> http.Request.t -> World ->
      (error + http.Response.t ReadCloser) * World;
    (** [ioutil.ReadAll] *)
    ioutil_ReadAll : ReadCloser -> World -> (error + list byte) * World;
    (** [response.Body.Close()] *)
    Body_Close : ReadCloser -> World -> World;
    (** [fmt.Sprintf("%v", h)] for an [http.Header] *)
    Sprint_Header : http.Header -> string }.

Section ApiClient.

Context {env : Env}.

(** *** Observable events *)

Inductive event : Type :=
| EvSend                                   (* entry into [Client.send] *)
| EvMarshal (v : any)
| EvNewRequest (method url : string) (body : list byte)
| EvPrintf (out : string)
| EvDo (hc : http.Client.t) (request : http.Request.t)
| EvReadAll (body : ReadCloser)
| EvClose (body : ReadCloser)
| EvSleep (d : Duration).

Definition is_send (e : event) : bool :=
  match e with EvSend => true | _ => false end.
Definition is_marshal (e : event) : bool :=
  match e with EvMarshal _ => true | _ => false end.
Definition is_newrequest (e : event) : bool :=
  match e with EvNewRequest _ _ _ => true | _ => false end.
Definition is_printf (e : event) : bool :=
  match e with EvPrintf _ => true | _ => false end.
Definition is_do (e : event) : bool :=
  match e with EvDo _ _ => true | _ => false end.
Definition is_sleep (e : event) : bool :=
  match e with EvSleep _ => true | _ => false end.

Definition count (p : event -> bool) (t : list event) : nat :=
  List.length (filter p t).

(** *** Program state

    [client] is the struct the receiver [c *Client] points to, [world] the
    environment, [trace] the events so far, oldest first. *)

Record State : Type := mkState
  { client : Client;
    world : World;
    trace : list event }.

Definition M (A : Type) : Type := State -> A * State.

Definition ret {A : Type} (a : A) : M A := fun s => (a, s).

Definition bind {A B : Type} (m : M A) (k : A -> M B) : M B :=
  fun s => let (a, s1) := m s in k a s1.

Notation "x <- m ;; k" := (bind m (fun x => k))
  (at level 100, m at next level, right associativity) : go_scope.
Notation "m ;; k" := (bind m (fun _ => k))
  (at level 100, right associativity) : go_scope.

(** Reading a field through the receiver. *)
Definition field {A : Type} (f : Client -> A) : M A :=
  fun s => (f (client s), s).

Definition emit (e : event) : M unit :=
  fun s => (tt, {| client := client s;
                   world := world s;
                   trace := trace s ++ [e] |}).

(** A call that reads and changes the outside world. *)
Definition extern {A : Type} (f : World -> A * World) : M A :=
  fun s => let (a, w) := f (world s) in
           (a, {| client := client s; world := w; trace := trace s |}).

Definition time_Sleep (d : Duration) : M unit := emit (EvSleep d).

Definition Printf (out : string) : M unit := emit (EvPrintf out).

Definition Do (hc : http.Client.t) (request : http.Request.t)
    : M (error + http.Response.t ReadCloser) :=
  (emit (EvDo hc request) ;; extern (Client_Do hc request))%go.

Definition ReadAll (body : ReadCloser) : M (error + list byte) :=
  (emit (EvReadAll body) ;; extern (ioutil_ReadAll body))%go.

Definition Close (body : ReadCloser) : M unit :=
  (emit (EvClose body) ;; extern (fun w => (tt, Body_Close body w)))%go.

(** [request.Header.Set(key, value)] *)
Definition Header_Set (key value : string) (h : http.Header) : http.Header :=
  let k := CanonicalMIMEHeaderKey key in
  (k, [value]) :: filter (fun kv => negb (String.eqb (fst kv) k)) h.

Definition Request_Header_Set (request : http.Request.t) (kv : string * string)
    : http.Request.t :=
  {| http.Request.Method := http.Request.Method request;
     http.Request.URL := http.Request.URL request;
     http.Request.Header :=
       Header_Set (fst kv) (snd kv) (http.Request.Header request);
     http.Request.Body := http.Request.Body request |}.

(** The [for key, value := range req.Headers] loop. *)
Definition set_headers (headers : list (string * string))
    (request : http.Request.t) : http.Request.t :=
  fold_left Request_Header_Set headers request.

(** [func (c *Client) logRequest] *)
Definition logRequest (request : http.Request.t) (body : list byte) : M unit :=
  (Printf (Sprintf_line "Request Method: " (http.Request.Method request)) ;;
   Printf (Sprintf_line "Request URL: " (http.Request.URL request)) ;;
   Printf (Sprintf_line "Request Headers: "
             (Sprint_Header (http.Request.Header request))) ;;
   Printf (Sprintf_line "Request Body: " (string_of_list_byte body)))%go.

(** [func (c *Client) logResponse] *)
Definition logResponse (response : http.Response.t ReadCloser)
    (body : list byte) : M unit :=
  (Printf (Sprintf_line "Response Status: " (http.Response.Status response)) ;;
   Printf (Sprintf_line "Response Headers: "
             (Sprint_Header (http.Response.Header response))) ;;
   Printf (Sprintf_line "Response Body: " (string_of_list_byte body)))%go.

(** A Go pair of a [*APIResponse] and an [error]; [None] is [nil]. *)
Definition result : Type := (option APIResponse.t * option error)%type.

(** [func (c *Client) send].  The deferred [response.Body.Close()] runs on
    both returns that follow its registration. *)
Definition send (req : APIRequest.t any) : M result :=
  (emit EvSend ;;
   baseURL <- field BaseURL ;;
   let url := Sprintf_ss baseURL (APIRequest.Endpoint req) in
   marshalled <- match APIRequest.Body req with
                 | Some v => emit (EvMarshal v) ;; ret (json_Marshal v)
                 | None => ret (inr [])
                 end ;;
   match marshalled with
   | inl err => ret (None, Some err)
   | inr reqBody =>
     emit (EvNewRequest (APIRequest.Method req) url reqBody) ;;
     match http_NewRequest (APIRequest.Method req) url reqBody with
     | inl err => ret (None, Some err)
     | inr request0 =>
       let request := set_headers (APIRequest.Headers req) request0 in
       debug <- field Debug ;;
       (if debug then logRequest request reqBody else ret tt) ;;
       hc <- field HTTPClient ;;
       done <- Do hc request ;;
       match done with
       | inl err => ret (None, Some err)
       | inr response =>
         read <- ReadAll (http.Response.Body response) ;;
         match read with
         | inl err =>
           Close (http.Response.Body response) ;;
           ret (None, Some err)
         | inr respBody =>
           debug' <- field Debug ;;
           (if debug' then logResponse response respBody else ret tt) ;;
           let apiResponse :=
             {| APIResponse.StatusCode := http.Response.StatusCode response;
                APIResponse.Headers := http.Response.Header response;
                APIResponse.Body := respBody |} in
           Close (http.Response.Body response) ;;
           ret (Some apiResponse, None)
         end
       end
     end
   end)%go.

(** The [for attempt := 0; attempt <= c.MaxRetries; attempt++] loop of
    [SendRequest], entered at the test of its condition.  One unit of
    [fuel] pays for one test; [None] means the fuel ran out before the
    loop returned. *)
Fixpoint SendRequest_loop (fuel : nat) (req : APIRequest.t any)
    (attempt : Z) (response : option APIResponse.t) (err : option error)
    (s : State) : option (result * State) :=
  match fuel with
  | O => None
  | S fuel' =>
    if attempt <=? MaxRetries (client s) then
      let (r, s1) := send req s in
      match snd r with
      | None => Some ((fst r, None), s1)
      | Some _ =>
        let (_, s2) := time_Sleep (RetryDelay (client s1)) s1 in
        SendRequest_loop fuel' req (int_incr attempt) (fst r) (snd r) s2
      end
    else Some ((response, err), s)
  end.

(** [func (c *Client) SendRequest] *)
Definition SendRequest (fuel : nat) (req : APIRequest.t any) (s : State)
    : option (result * State) :=
  SendRequest_loop fuel req 0 None None s.

(** The body of the loop on a failing attempt: the call of [send] followed
    by [time.Sleep(c.RetryDelay)]. *)
Definition failed_round (req : APIRequest.t any) (s : State) : State :=
  let (_, s1) := send req s in
  snd (time_Sleep (RetryDelay (client s1)) s1).

(** [failed_attempts req es s s']: from [s], [length es] attempts in a row
    fail, the i-th with the i-th error of [es], each followed by its sleep,
    and [s'] is the state reached. *)
Fixpoint failed_attempts (req : APIRequest.t any) (es : list error)
    (s s' : State) : Prop :=
  match es with
  | [] => s' = s
  | e :: es' =>
    snd (fst (send req s)) = Some e /\
    failed_attempts req es' (failed_round req s) s'
  end.

(** The state [s] with its history replaced by [t]. *)
Definition with_trace (t : list event) (s : State) : State :=
  {| client := client s; world := world s; trace := t |}.

(** The events of one call of [send] made in state [s]. *)
Definition send_events (req : APIRequest.t any) (s : State) : list event :=
  trace (snd (send req (with_trace [] s))).

End ApiClient.

Arguments State env : clear implicits.
Arguments event env : clear implicits.

(** ** Two concrete environments *)

Local Open Scope string_scope.

(** No server listens: every round trip is refused. *)
Module Unreachable.

Definition env : Env :=
  {| any := unit;
     error := string;
     World := unit;
     ReadCloser := unit;
     json_Marshal := fun _ => inr [];
     http_NewRequest := fun m u b => inr (http.Request.mk m u [] b);
     CanonicalMIMEHeaderKey := fun k => k;
     Client_Do := fun _ _ w => (inl "dial tcp: connection refused", w);
     ioutil_ReadAll := fun _ w => (inr [], w);
     Body_Close := fun _ w => w;
     Sprint_Header := fun _ => "map[]" |}.

Definition get : APIRequest.t (@any env) :=
  {| APIRequest.Method := "GET";
     APIRequest.Endpoint := "/data";
     APIRequest.Headers := [];
     APIRequest.Body := None |}.

(** A fresh client with the given retry budget. *)
Definition start (maxRetries : Z) : State env :=
  @mkState env
    (NewClient "https://api.example.com" false maxRetries (2 * time_Second))
    tt [].

End Unreachable.

(** A server that follows a script: each round trip consumes the next
    outcome; when the script is over the connection is refused. *)
Module Scripted.

(** A [json.RawMessage], which marshals to itself, or a channel, which
    [json.Marshal] rejects. *)
Inductive value : Type :=
| VRaw (json : string)
| VChan.

Inductive outcome : Type :=
| Refuse (msg : string)
| Reply (status : string) (code : Z) (body : string + list byte).

Definition marshal (v : value) : string + list byte :=
  match v with
  | VRaw json => inr (list_byte_of_string json)
  | VChan => inl "json: unsupported type: chan int"
  end.

Definition new_request (m u : string) (b : list byte)
    : string + http.Request.t :=
  if String.eqb m "BAD METHOD" then inl "net/http: invalid method"
  else inr (http.Request.mk m u [] b).

Definition do (_ : http.Client.t) (_ : http.Request.t) (w : list outcome)
    : (string + http.Response.t (string + list byte)) * list outcome :=
  match w with
  | [] => (inl "dial tcp: connection refused", [])
  | Refuse msg :: w' => (inl msg, w')
  | Reply status code body :: w' =>
    (inr (http.Response.mk status code [] body), w')
  end.

Definition env : Env :=
  {| any := value;
     error := string;
     World := list outcome;
     ReadCloser := string + list byte;
     json_Marshal := marshal;
     http_NewRequest := new_request;
     CanonicalMIMEHeaderKey := fun k => k;
     Client_Do := do;
     ioutil_ReadAll := fun body w => (body, w);
     Body_Close := fun _ w => w;
     Sprint_Header := fun _ => "map[]" |}.

Definition request (body : option value) : APIRequest.t (@any env) :=
  {| APIRequest.Method := "POST";
     APIRequest.Endpoint := "/data";
     APIRequest.Headers := [];
     APIRequest.Body := body |}.

Definition start (debug : bool) (maxRetries : Z) (script : list outcome)
    : State env :=
  @mkState env
    (NewClient "https://api.example.com" debug maxRetries (2 * time_Second))
    script [].

Definition post : APIRequest.t (@any env) := request (Some (VRaw "{}")).

(** The server answers with status 500 and an empty body. *)
Definition broken : State env :=
  start false 3 [Reply "500 Internal Server Error" 500 (inr [])].

(** One retry allowed; the first round trip times out, the second breaks
    while the body is read. *)
Definition flaky : State env :=
  start false 1 [Refuse "context deadline exceeded";
                 Reply "200 OK" 200 (inl "unexpected EOF")].

(** A client whose base URL ends with a slash. *)
Definition slashed : State env :=
  @mkState env (NewClient "https://api.example.com/" false 0 0) [] [].

(** The first round trip times out, the second is answered. *)
Definition recovering : State env :=
  start false 3 [Refuse "context deadline exceeded";
                 Reply "200 OK" 200 (inr [])].

End Scripted.

(** ** Further observations, and the caller in [example.go] *)

Local Open Scope list_scope.

Section Callers.

Context {env : Env}.

Definition is_readall (e : event env) : bool :=
  match e with EvReadAll _ => true | _ => false end.

Definition is_close (e : event env) : bool :=
  match e with EvClose _ => true | _ => false end.

(** What went to standard output, line by line. *)
Definition printed (t : list (event env)) : list string :=
  flat_map (fun e => match e with EvPrintf out => [out] | _ => [] end) t.

(** [h[key]] on the Go map behind an [http.Header]. *)
Definition Header_lookup (key : string) (h : http.Header)
    : option (list string) :=
  match find (fun kv => String.eqb (fst kv) key) h with
  | Some kv => Some (snd kv)
  | None => None
  end.

(** The error, if any, with which [send] returns before it reaches the
    transport: the one of [json.Marshal], else the one of
    [http.NewRequest]. *)
Definition preflight_error (req : APIRequest.t any) (s : State env)
    : option error :=
  match match APIRequest.Body req with
        | Some v => json_Marshal v
        | None => inr []
        end with
  | inl err => Some err
  | inr reqBody =>
    match http_NewRequest (APIRequest.Method req)
            (Sprintf_ss (BaseURL (client s)) (APIRequest.Endpoint req))
            reqBody with
    | inl err => Some err
    | inr _ => None
    end
  end.

(** [err.Error()], as [%v] prints an error. *)
Variable error_Error : error -> string.





(** The state [s] with the [Debug] field of its client set to [debug]. *)
Definition with_Debug (debug : bool) (s : State env) : State env :=
  {| client := {| BaseURL := BaseURL (client s);
                  HTTPClient := HTTPClient (client s);
                  Debug := debug;
                  MaxRetries := MaxRetries (client s);
                  RetryDelay := RetryDelay (client s) |};
     world := world s;
     trace := trace s |}.

(** [s1] and [s2] differ at most in the [Debug] flag and in what was
    printed. *)
Definition agree_but_debug (s1 s2 : State env) : Prop :=
  BaseURL (client s1) = BaseURL (client s2) /\
  HTTPClient (client s1) = HTTPClient (client s2) /\
  MaxRetries (client s1) = MaxRetries (client s2) /\
  RetryDelay (client s1) = RetryDelay (client s2) /\
  world s1 = world s2 /\
  filter (fun e => negb (is_printf e)) (trace s1) =
  filter (fun e => negb (is_printf e)) (trace s2).

(** The double quote. *)
Definition DQUOTE : string := String (ascii_of_nat 34) EmptyString.

(** [expectedBody] of [TestSendRequest], the JSON object with the one
    member [message] of value [success]; the handler of the test server
    writes the same bytes. *)
Definition expectedBody : string :=
  String.append "{"
    (String.append DQUOTE (String.append "message"
      (String.append DQUOTE (String.append ": "
        (String.append DQUOTE (String.append "success"
          (String.append DQUOTE "}"))))))).

(** How [TestSendRequest] ends: it passes, one of its three [t.Fatalf]
    stops it, or it dereferences a nil response. *)
Inductive verdict : Type :=
| Pass
| FatalError (e : error)
| FatalStatusCode (code : Z)
| FatalBody (body : list byte)
| NilDereference.

Definition test_request : APIRequest.t any :=
  {| APIRequest.Method := "GET";
     APIRequest.Endpoint := "/";
     APIRequest.Headers := [("Content-Type", "application/json")];
     APIRequest.Body := None |}.

(** The state in which the test calls [SendRequest]; [serverURL] is the
    [URL] of the [httptest] server. *)
Definition test_start (serverURL : string) (w : World) : State env :=
  {| client := NewClient serverURL true 3 (2 * time_Second);
     world := w;
     trace := [] |}.

(** [func TestSendRequest] of [apiClient_test.go] *)
Definition TestSendRequest (serverURL : string) (fuel : nat) (w : World)
    : option (verdict * State env) :=
  match SendRequest fuel test_request (test_start serverURL w) with
  | None => None
  | Some ((resp, err), s1) =>
    match err with
    | Some e => Some (FatalError e, s1)
    | None =>
      match resp with
      | None => Some (NilDereference, s1)
      | Some r =>
        if negb (Z.eqb (APIResponse.StatusCode r) 200) then
          Some (FatalStatusCode (APIResponse.StatusCode r), s1)
        else if negb (String.eqb (string_of_list_byte (APIResponse.Body r))
                        expectedBody) then
          Some (FatalBody (APIResponse.Body r), s1)
        else Some (Pass, s1)
      end
    end
  end.

(** Two requests that are one Go request: the same method, URL and body,
    and the same header map, whatever list stands for the map. *)
Definition Request_same (r r' : http.Request.t) : Prop :=
  http.Request.Method r = http.Request.Method r' /\
  http.Request.URL r = http.Request.URL r' /\
  http.Request.Body r = http.Request.Body r' /\
  forall key, Header_lookup key (http.Request.Header r) =
              Header_lookup key (http.Request.Header r').

(** Two values that stand for one [APIRequest]: the same method, endpoint
    and body, and the entries of one [Headers] map, listed in the two orders
    in which two [range] loops visit them. *)
Definition same_request (req req' : APIRequest.t any) : Prop :=
  APIRequest.Method req = APIRequest.Method req' /\
  APIRequest.Endpoint req = APIRequest.Endpoint req' /\
  APIRequest.Body req = APIRequest.Body req' /\
  Permutation (APIRequest.Headers req) (APIRequest.Headers req').

(** The canonical forms of the header keys of a request. *)
Definition canonical_keys (req : APIRequest.t any) : list string :=
  map (fun kv => CanonicalMIMEHeaderKey (fst kv)) (APIRequest.Headers req).

End Callers.

(** A server that sends back, as the body of its answer, the [Accept]
    header it received. *)
Module Echo.

(** [textproto.CanonicalMIMEHeaderKey] on the keys used below. *)
Definition canonical (key : string) : string :=
  if String.eqb key "accept" then "Accept" else key.

Definition do (_ : http.Client.t) (request : http.Request.t) (w : unit)
    : (string + http.Response.t (list byte)) * unit :=
  (inr (http.Response.mk "200 OK" 200 []
          match Header_lookup "Accept" (http.Request.Header request) with
          | Some (v :: _) => list_byte_of_string v
          | _ => []
          end),
   w).

Definition env : Env :=
  {| any := unit;
     error := string;
     World := unit;
     ReadCloser := list byte;
     json_Marshal := fun _ => inr [];
     http_NewRequest := fun m u b => inr (http.Request.mk m u [] b);
     CanonicalMIMEHeaderKey := canonical;
     Client_Do := do;
     ioutil_ReadAll := fun body w => (inr body, w);
     Body_Close := fun _ w => w;
     Sprint_Header := fun _ => "map[]" |}.

Definition get (headers : list (string * string)) : APIRequest.t (@any env) :=
  {| APIRequest.Method := "GET";
     APIRequest.Endpoint := "/";
     APIRequest.Headers := headers;
     APIRequest.Body := None |}.

(** The map with the two keys [accept] and [Accept], as one [range] loop
    and as another visit it. *)
Definition lower_first : APIRequest.t (@any env) :=
  get [("accept", "text/plain"); ("Accept", "application/json")].

Definition upper_first : APIRequest.t (@any env) :=
  get [("Accept", "application/json"); ("accept", "text/plain")].

(** A map whose keys have different canonical forms, in two orders. *)
Definition trace_first : APIRequest.t (@any env) :=
  get [("X-Trace", "1"); ("accept", "text/plain")].

Definition trace_last : APIRequest.t (@any env) :=
  get [("accept", "text/plain"); ("X-Trace", "1")].

Definition start : State env :=
  @mkState env (NewClient "http://127.0.0.1:8080" false 0 0) tt [].

End Echo.

(** Further scripted runs. *)

(** Debug on; the round trip is answered with status 404. *)
Definition scripted_verbose : State Scripted.env :=
  Scripted.start true 3 [Scripted.Reply "404 Not Found" 404 (inr [])].

(** Debug on; the answer breaks while its body is read. *)
Definition scripted_truncated : State Scripted.env :=
  Scripted.start true 0 [Scripted.Reply "200 OK" 200 (inl "unexpected EOF")].

(** A request whose method [http.NewRequest] rejects. *)
Definition scripted_bad_method : APIRequest.t (@any Scripted.env) :=
  {| APIRequest.Method := "BAD METHOD";
     APIRequest.Endpoint := "/data";
     APIRequest.Headers := [];
     APIRequest.Body := None |}.

(** The test server: it answers 200 with the expected body. *)
Definition scripted_test_server : @World Scripted.env :=
  [Scripted.Reply "200 OK" 200 (inr (list_byte_of_string expectedBody))].

(** A client that retries for ever, and a server that answers the third
    round trip. *)
Definition scripted_forever : State Scripted.env :=
  Scripted.start false maxInt
    [Scripted.Refuse "context deadline exceeded";
     Scripted.Refuse "context deadline exceeded";
     Scripted.Reply "200 OK" 200 (inr [])].

(** The state in which [SendRequest] leaves [Scripted.flaky]: both attempts
    failed. *)
Definition scripted_flaky_end : State Scripted.env :=
  failed_round Scripted.post (failed_round Scripted.post Scripted.flaky).

(** The state in which [SendRequest] leaves [Scripted.recovering]: the
    second attempt succeeded. *)
Definition scripted_recovering_end : State Scripted.env :=
  snd (send Scripted.post (failed_round Scripted.post Scripted.recovering)).

(** The same header given twice. *)
Definition scripted_accept : APIRequest.t (@any Scripted.env) :=
  {| APIRequest.Method := "GET";
     APIRequest.Endpoint := "/data";
     APIRequest.Headers := [("Accept", "text/plain");
                            ("Accept", "application/json")];
     APIRequest.Body := None |}.

(** The request [send] hands to the transport for [scripted_accept]. *)
Definition scripted_accept_sent : http.Request.t :=
  {| http.Request.Method := "GET";
     http.Request.URL := "https://api.example.com/data";
     http.Request.Header := [("Accept", ["application/json"])];
     http.Request.Body := [] |}.

(** Two retries allowed; the server would answer, were it asked. *)
Definition scripted_ready : State Scripted.env :=
  Scripted.start false 2 [Scripted.Reply "200 OK" 200 (inr [])].

(** * Properties *)

Local Open Scope list_scope.
Local Open Scope Z_scope.

(** ** Arithmetic of [int] *)

Lemma maxInt_eq : maxInt = 9223372036854775807.
Proof. reflexivity. Qed.

Lemma minInt_eq : minInt = -9223372036854775808.
Proof. reflexivity. Qed.

Lemma int_wrap_id (z : Z) : int_range z -> int_wrap z = z.
Proof.
  unfold int_range, int_wrap. rewrite maxInt_eq, minInt_eq.
  change (2 ^ intSize) with 18446744073709551616.
  intros H. rewrite Z.mod_small; lia.
Qed.

Lemma int_wrap_range (z : Z) : int_range (int_wrap z).
Proof.
  unfold int_range, int_wrap. rewrite maxInt_eq, minInt_eq.
  change (2 ^ intSize) with 18446744073709551616.
  pose proof (Z.mod_pos_bound (z - -9223372036854775808) 18446744073709551616).
  lia.
Qed.

Lemma int_incr_lt (z : Z) : minInt <= z < maxInt -> int_incr z = z + 1.
Proof.
  intros H. unfold int_incr. apply int_wrap_id. unfold int_range. lia.
Qed.

Lemma int_incr_range (z : Z) : int_range (int_incr z).
Proof. apply int_wrap_range. Qed.

Lemma int_range_0 : int_range 0.
Proof. unfold int_range. rewrite maxInt_eq, minInt_eq. lia. Qed.

Section Properties.

Context {env : Env}.

Implicit Types (req : APIRequest.t any) (s : State env) (e : error).

(** ** One call of [send] *)

Ltac send_unfold :=
  unfold send, logRequest, logResponse, Do, ReadAll, Close, Printf,
    time_Sleep, bind, ret, field, emit, extern in *;
  simpl in *.

Ltac send_cases :=
  send_unfold;
  repeat match goal with
    | |- context [match ?x with _ => _ end] =>
      lazymatch x with
      | context [match _ with _ => _ end] => fail
      | _ => destruct x eqn:?; simpl in *
      end
    end.

(** [send] reads the history nowhere: it only appends to it. *)
Lemma send_with_trace req s :
  send req s =
  (fst (send req (with_trace [] s)),
   with_trace (trace s ++ send_events req s)
     (snd (send req (with_trace [] s)))).
Proof.
  unfold send_events, with_trace. send_cases;
    rewrite <- ?app_assoc; simpl; reflexivity.
Qed.

Lemma send_client req s : client (snd (send req s)) = client s.
Proof. rewrite send_with_trace. unfold with_trace. send_cases; reflexivity. Qed.

Lemma send_trace req s :
  trace (snd (send req s)) = trace s ++ send_events req s.
Proof. rewrite send_with_trace. reflexivity. Qed.

Lemma count_app (p : event env -> bool) (t u : list (event env)) :
  count p (t ++ u) = (count p t + count p u)%nat.
Proof. unfold count. rewrite filter_app. apply length_app. Qed.

(** Each call of [send] is one entry in the trace, and [send] never
    sleeps. *)
Lemma send_events_sends req s : count is_send (send_events req s) = 1%nat.
Proof.
  unfold send_events, with_trace, count. send_cases;
    rewrite ?filter_app; simpl; reflexivity.
Qed.

Lemma send_events_sleeps req s : count is_sleep (send_events req s) = 0%nat.
Proof.
  unfold send_events, with_trace, count. send_cases;
    rewrite ?filter_app; simpl; reflexivity.
Qed.

Lemma send_events_quiet req s :
  Debug (client s) = false -> filter is_printf (send_events req s) = [].
Proof.
  intros Hdebug. unfold send_events, with_trace.
  send_cases; try congruence; rewrite ?filter_app; reflexivity.
Qed.

(** Every error return of [send] carries a nil response. *)
Lemma send_error_response req s e :
  snd (fst (send req s)) = Some e -> fst (fst (send req s)) = None.
Proof. send_cases; intros H; try reflexivity; discriminate H. Qed.

(** ** A failing round: [send] and the sleep that follows *)

Lemma failed_round_client req s : client (failed_round req s) = client s.
Proof.
  unfold failed_round. pose proof (send_client req s) as H.
  destruct (send req s) as [r s1]. simpl in *. exact H.
Qed.

Lemma failed_round_trace req s :
  trace (failed_round req s) =
  trace s ++ send_events req s ++ [EvSleep (RetryDelay (client s))].
Proof.
  unfold failed_round.
  pose proof (send_client req s) as Hc. pose proof (send_trace req s) as Ht.
  destruct (send req s) as [r s1]. simpl in *.
  rewrite Hc, Ht, app_assoc. reflexivity.
Qed.

Lemma failed_round_counts req s :
  count is_send (trace (failed_round req s)) = S (count is_send (trace s)) /\
  count is_sleep (trace (failed_round req s)) = S (count is_sleep (trace s)).
Proof.
  rewrite failed_round_trace, !count_app, send_events_sends,
    send_events_sleeps. unfold count. simpl. lia.
Qed.

Lemma failed_attempts_client req es s s' :
  failed_attempts req es s s' -> client s' = client s.
Proof.
  revert s. induction es as [|e es IH]; simpl; intros s H.
  - subst. reflexivity.
  - destruct H as [_ H]. rewrite (IH _ H). apply failed_round_client.
Qed.

Lemma failed_attempts_counts req es s s' :
  failed_attempts req es s s' ->
  count is_send (trace s') = (count is_send (trace s) + List.length es)%nat /\
  count is_sleep (trace s') = (count is_sleep (trace s) + List.length es)%nat.
Proof.
  revert s. induction es as [|e es IH]; simpl; intros s H.
  - subst. lia.
  - destruct H as [_ H]. apply IH in H.
    pose proof (failed_round_counts req s). lia.
Qed.

(** ** The retry loop *)

Lemma loop_exit fuel req i response err s :
  MaxRetries (client s) < i ->
  SendRequest_loop (S fuel) req i response err s = Some ((response, err), s).
Proof.
  intros H. simpl. destruct (Z.leb_spec i (MaxRetries (client s))); [lia|].
  reflexivity.
Qed.

Lemma loop_success fuel req i response err s r :
  i <= MaxRetries (client s) ->
  fst (send req s) = (r, None) ->
  SendRequest_loop (S fuel) req i response err s =
  Some ((r, None), snd (send req s)).
Proof.
  intros Hi Hs. simpl.
  destruct (Z.leb_spec i (MaxRetries (client s))); [|lia].
  destruct (send req s) as [[r' e'] s1]. simpl in *.
  inversion Hs; subst. reflexivity.
Qed.

Lemma loop_failure fuel req i response err s e :
  i <= MaxRetries (client s) ->
  snd (fst (send req s)) = Some e ->
  SendRequest_loop (S fuel) req i response err s =
  SendRequest_loop fuel req (int_incr i) None (Some e) (failed_round req s).
Proof.
  intros Hi Hs. pose proof (send_error_response _ _ _ Hs) as Hr.
  simpl. unfold failed_round.
  destruct (Z.leb_spec i (MaxRetries (client s))); [|lia].
  destruct (send req s) as [[r' e'] s1]. simpl in *. subst. reflexivity.
Qed.

Lemma failed_attempts_snoc req es e s s' :
  failed_attempts req (es ++ [e]) s s' <->
  exists s1, failed_attempts req es s s1 /\
             snd (fst (send req s1)) = Some e /\
             s' = failed_round req s1.
Proof.
  revert s. induction es as [|e1 es IH]; simpl; intros s.
  - split.
    + intros [He Hs]. exists s. auto.
    + intros [s1 [H1 [He Hs]]]. subst. auto.
  - rewrite IH. split.
    + intros [He1 [s1 H]]. exists s1. tauto.
    + intros [s1 [[He1 H1] H]]. split; [exact He1|]. exists s1. tauto.
Qed.

(** After a non-empty run of failing attempts the loop stands at the test
    that follows the last of them, holding a nil response and the last
    error. *)
Lemma loop_failed_attempts req es :
  forall s s' i fuel r0 err0 d,
    es <> [] ->
    failed_attempts req es s s' ->
    minInt <= i ->
    i + Z.of_nat (List.length es) - 1 <= MaxRetries (client s) ->
    MaxRetries (client s) <= maxInt ->
    SendRequest_loop (List.length es + fuel) req i r0 err0 s =
    SendRequest_loop fuel req (int_incr (i + Z.of_nat (List.length es) - 1))
      None (Some (last es d)) s'.
Proof.
  induction es as [|e es IH]; intros s s' i fuel r0 err0 d Hne Hrun Hi HN Hmax;
    [congruence|].
  destruct Hrun as [He Hrun].
  change (List.length (e :: es) + fuel)%nat
    with (S (List.length es + fuel)).
  rewrite (loop_failure _ _ _ _ _ _ e); [|simpl List.length in HN; lia|exact He].
  destruct es as [|e2 es].
  - simpl in Hrun. subst s'. simpl.
    replace (i + 1 - 1) with i by lia. reflexivity.
  - rewrite int_incr_lt by (simpl List.length in HN; lia).
    rewrite (IH (failed_round req s) s' (i + 1) fuel None (Some e) d);
      try rewrite failed_round_client; try assumption; try congruence;
      try (simpl List.length in *; lia).
    f_equal. f_equal. simpl List.length. lia.
Qed.

(** If the loop returns an error, every attempt from the current index up
    to [MaxRetries] was made and failed, and the error is that of the last
    one; if no attempt was left, it is the error the loop was entered
    with. *)
Lemma loop_error_inv req fuel :
  forall i r0 err0 s r e s',
    int_range i ->
    int_range (MaxRetries (client s)) ->
    SendRequest_loop fuel req i r0 err0 s = Some ((r, Some e), s') ->
    (MaxRetries (client s) < i /\ r = r0 /\ err0 = Some e /\ s' = s) \/
    (i <= MaxRetries (client s) /\ MaxRetries (client s) < maxInt /\
     r = None /\
     exists es, Z.of_nat (List.length es) = MaxRetries (client s) - i /\
                failed_attempts req (es ++ [e]) s s').
Proof.
  induction fuel as [|fuel IH]; intros i r0 err0 s r e s' Hi HN Hloop;
    [discriminate|].
  destruct (Z.le_gt_cases i (MaxRetries (client s))) as [Hle|Hgt].
  - right. destruct (snd (fst (send req s))) as [e1|] eqn:He1.
    + rewrite (loop_failure _ _ _ _ _ _ e1 Hle He1) in Hloop.
      apply IH in Hloop;
        [|apply int_incr_range|rewrite failed_round_client; exact HN].
      rewrite failed_round_client in Hloop.
      destruct (Z.eq_dec i maxInt) as [Hmax|Hmax].
      * exfalso. unfold int_range in *.
        pose proof (int_incr_range i) as Hr. unfold int_range in Hr.
        destruct Hloop as [[H _]|[_ [H _]]]; lia.
      * rewrite int_incr_lt in Hloop by (unfold int_range in *; lia).
        unfold int_range in *.
        destruct Hloop as [[H [Hr [He Hs]]]|[H [Hlt [Hr [es [Hlen Hrun]]]]]].
        -- inversion He; subst. repeat split; try lia.
           exists []. simpl. split; [lia|auto].
        -- repeat split; try lia; try assumption.
           exists (e1 :: es). simpl List.length. split; [lia|].
           simpl. auto.
    + exfalso. simpl in Hloop.
      destruct (Z.leb_spec i (MaxRetries (client s))); [|lia].
      destruct (send req s) as [[r1 e1] s1]. simpl in *. subst e1.
      discriminate.
  - left. rewrite loop_exit in Hloop by lia. inversion Hloop; subst. auto.
Qed.

(** With [MaxRetries = maxInt] the condition of the loop holds for every
    value of [attempt]: while attempts fail the loop does not end. *)
Lemma loop_maxInt_diverges req fuel :
  forall i r0 err0 s,
    MaxRetries (client s) = maxInt ->
    int_range i ->
    (forall s0, snd (fst (send req s0)) <> None) ->
    SendRequest_loop fuel req i r0 err0 s = None.
Proof.
  induction fuel as [|fuel IH]; intros i r0 err0 s HN Hi Hfail; [reflexivity|].
  destruct (snd (fst (send req s))) as [e|] eqn:He;
    [|exfalso; exact (Hfail s He)].
  rewrite (loop_failure _ _ _ _ _ _ e);
    [|unfold int_range in Hi; lia|exact He].
  apply IH; [rewrite failed_round_client; exact HN|apply int_incr_range|exact Hfail].
Qed.

Lemma loop_client req fuel :
  forall i r0 err0 s r s',
    SendRequest_loop fuel req i r0 err0 s = Some (r, s') ->
    client s' = client s.
Proof.
  induction fuel as [|fuel IH]; intros i r0 err0 s r s' Hloop; [discriminate|].
  simpl in Hloop. destruct (i <=? MaxRetries (client s)).
  - pose proof (send_client req s) as Hc.
    destruct (send req s) as [[r1 e1] s1]. simpl in *.
    destruct e1 as [e1|].
    + apply IH in Hloop. simpl in Hloop. congruence.
    + inversion Hloop; subst. exact Hc.
  - inversion Hloop; subst. reflexivity.
Qed.

(** When every call of [send] fails, any number of attempts can be run. *)
Lemma all_fail_attempts req :
  (forall s0, snd (fst (send req s0)) <> None) ->
  forall n s, exists es s',
    List.length es = n /\ failed_attempts req es s s'.
Proof.
  intros Hfail. induction n as [|n IH]; intros s.
  - exists [], s. simpl. auto.
  - destruct (snd (fst (send req s))) as [e|] eqn:He;
      [|exfalso; exact (Hfail s He)].
    destruct (IH (failed_round req s)) as [es [s' [Hlen Hrun]]].
    exists (e :: es), s'. simpl. auto.
Qed.

Lemma loop_quiet req fuel :
  forall i r0 err0 s r s',
    Debug (client s) = false ->
    SendRequest_loop fuel req i r0 err0 s = Some (r, s') ->
    filter is_printf (trace s') = filter is_printf (trace s).
Proof.
  induction fuel as [|fuel IH]; intros i r0 err0 s r s' Hd Hloop;
    [discriminate|].
  simpl in Hloop. destruct (i <=? MaxRetries (client s)).
  - pose proof (send_client req s) as Hc.
    pose proof (send_trace req s) as Ht.
    pose proof (send_events_quiet req s Hd) as Hq.
    destruct (send req s) as [[r1 e1] s1]. simpl in *.
    assert (Hs1 : filter is_printf (trace s1) = filter is_printf (trace s))
      by (rewrite Ht, filter_app, Hq; apply app_nil_r).
    destruct e1 as [e1|].
    + apply IH in Hloop; [|simpl; congruence].
      simpl in Hloop. rewrite filter_app in Hloop. simpl in Hloop.
      rewrite app_nil_r in Hloop. congruence.
    + inversion Hloop; subst. exact Hs1.
  - inversion Hloop; subst. reflexivity.
Qed.

(** ** The claims *)

(** C1 (as amended).  For a client with [MaxRetries = N] and
    [0 <= N < maxInt], if every call of [send] fails, [SendRequest] calls
    [send] exactly [N + 1] times and then returns what the last call
    returned: a nil response and the last error. *)
Theorem SendRequest_all_attempts_fail req s :
  0 <= MaxRetries (client s) < maxInt ->
  (forall s0, snd (fst (send req s0)) <> None) ->
  exists s_last e,
    fst (send req s_last) = (None, Some e) /\
    (forall fuel,
        (Z.to_nat (MaxRetries (client s)) + 2 <= fuel)%nat ->
        SendRequest fuel req s =
        Some ((None, Some e), failed_round req s_last)) /\
    count is_send (trace (failed_round req s_last)) =
    (count is_send (trace s) + (Z.to_nat (MaxRetries (client s)) + 1))%nat.
Proof.
  intros HN Hfail.
  destruct (all_fail_attempts req Hfail
              (S (Z.to_nat (MaxRetries (client s)))) s) as [es [s' [Hlen Hrun]]].
  assert (Hne : es <> []) by (intros ->; discriminate Hlen).
  destruct (exists_last Hne) as [es0 [e Hes]].
  pose proof Hrun as Hrun'. rewrite Hes in Hrun'.
  apply failed_attempts_snoc in Hrun'.
  destruct Hrun' as [s_last [Hrun0 [He Hs']]].
  exists s_last, e. split; [|split].
  - pose proof (send_error_response _ _ _ He) as Hr.
    destruct (send req s_last) as [[r1 e1] s1]. simpl in *. congruence.
  - intros fuel Hfuel.
    replace fuel with (List.length es + S (fuel - List.length es - 1))%nat
      by lia.
    unfold SendRequest.
    rewrite (loop_failed_attempts req es s s' 0 _ None None e Hne Hrun);
      try (rewrite ?minInt_eq; lia).
    rewrite int_incr_lt by (rewrite ?minInt_eq; lia).
    rewrite loop_exit
      by (rewrite (failed_attempts_client _ _ _ _ Hrun); lia).
    rewrite Hes at 1. rewrite last_last. congruence.
  - rewrite <- Hs'.
    destruct (failed_attempts_counts _ _ _ _ Hrun) as [Hsends _].
    rewrite Hsends, Hlen. lia.
Qed.

(** C3.  When the attempt made in state [s] gets through the round trip
    and the body read, [send] returns the response with a nil error
    whatever its status code, and [SendRequest] (with [MaxRetries >= 0], so
    that an attempt is made) returns that response at once: one call of
    [send], no sleep. *)
Theorem SendRequest_status_not_inspected
    req s reqBody request response w1 respBody w2 :
  0 <= MaxRetries (client s) ->
  match APIRequest.Body req with
  | Some v => json_Marshal v = inr reqBody
  | None => reqBody = []
  end ->
  http_NewRequest (APIRequest.Method req)
    (String.append (BaseURL (client s)) (APIRequest.Endpoint req)) reqBody =
  inr request ->
  Client_Do (HTTPClient (client s))
    (set_headers (APIRequest.Headers req) request) (world s) =
  (inr response, w1) ->
  ioutil_ReadAll (http.Response.Body response) w1 = (inr respBody, w2) ->
  let apiResponse :=
    {| APIResponse.StatusCode := http.Response.StatusCode response;
       APIResponse.Headers := http.Response.Header response;
       APIResponse.Body := respBody |} in
  fst (send req s) = (Some apiResponse, None) /\
  (forall fuel,
      SendRequest (S fuel) req s =
      Some ((Some apiResponse, None), snd (send req s))) /\
  count is_send (trace (snd (send req s))) = S (count is_send (trace s)) /\
  count is_sleep (trace (snd (send req s))) = count is_sleep (trace s).
Proof.
  intros HN Hbody Hnew Hdo Hread apiResponse.
  assert (Hsend : fst (send req s) = (Some apiResponse, None)).
  { subst apiResponse.
    send_cases; unfold Sprintf_ss in *; subst; congruence. }
  split; [exact Hsend|]. split; [|split].
  - intros fuel. unfold SendRequest. apply loop_success; assumption.
  - rewrite send_trace, count_app, send_events_sends. lia.
  - rewrite send_trace, count_app, send_events_sleeps. lia.
Qed.

(** C4.  The loop looks at no error beyond testing it against nil.  After
    any run of failed attempts, whatever their errors [es], the loop is
    back at its test with [attempt = length es], so that the next attempt
    is made whenever one remains; and [SendRequest] returns an error [e]
    exactly when all [MaxRetries + 1] attempts failed, with errors
    [es ++ [e]]: the error returned is the one of the last attempt, the
    earlier ones [es] are dropped, and the response is nil. *)
Theorem SendRequest_error_is_last_attempt req s :
  int_range (MaxRetries (client s)) ->
  (forall es s1,
      failed_attempts req es s s1 ->
      Z.of_nat (List.length es) <= MaxRetries (client s) ->
      forall fuel, exists r1 err1,
        SendRequest (List.length es + fuel) req s =
        SendRequest_loop fuel req (Z.of_nat (List.length es)) r1 err1 s1) /\
  (forall r e s',
      (exists fuel, SendRequest fuel req s = Some ((r, Some e), s')) <->
      (0 <= MaxRetries (client s) < maxInt /\ r = None /\
       exists es,
         Z.of_nat (List.length es) = MaxRetries (client s) /\
         failed_attempts req (es ++ [e]) s s')).
Proof.
  intros HN. pose proof HN as [HNmin HNmax]. split.
  - intros es s1 Hrun Hlen fuel. destruct es as [|e0 es].
    + simpl in Hrun. subst s1. exists None, None. reflexivity.
    + exists None, (Some (last (e0 :: es) e0)). unfold SendRequest.
      rewrite (loop_failed_attempts req (e0 :: es) s s1 0 fuel None None e0);
        try assumption; try discriminate; try (rewrite ?minInt_eq; lia).
      rewrite int_incr_lt by (rewrite ?minInt_eq; lia).
      f_equal. lia.
  - intros r e s'. split.
    + intros [fuel Hloop]. unfold SendRequest in Hloop.
      apply loop_error_inv in Hloop; [|exact int_range_0|exact HN].
      destruct Hloop as [[_ [_ [Habs _]]]|[H0 [Hlt [Hr [es [Hlen Hrun]]]]]];
        [discriminate|].
      repeat split; try assumption. exists es. split; [lia|exact Hrun].
    + intros [[H0 Hlt] [Hr [es [Hlen Hrun]]]]. subst r.
      exists (List.length (es ++ [e]) + 1)%nat. unfold SendRequest.
      assert (Hlen' : Z.of_nat (List.length (es ++ [e])) =
                      MaxRetries (client s) + 1)
        by (rewrite length_app; simpl; lia).
      rewrite (loop_failed_attempts req (es ++ [e]) s s' 0 _ None None e);
        try assumption; try (rewrite ?minInt_eq; lia);
        [|intros Habs; apply app_eq_nil in Habs; destruct Habs; discriminate].
      rewrite int_incr_lt by (rewrite ?minInt_eq; lia).
      rewrite loop_exit
        by (rewrite (failed_attempts_client _ _ _ _ Hrun); lia).
      rewrite last_last. reflexivity.
Qed.

(** C5.  If the first [k - 1] attempts fail (errors [es]) and the [k]-th
    call of [send], made in state [s1], returns a nil error, with
    [k <= MaxRetries + 1], then [SendRequest] returns the result of that
    call in the very state in which the call returned: [k] calls of
    [send], [k - 1] sleeps, none of them after the successful attempt. *)
Theorem SendRequest_first_success req s es s1 r :
  MaxRetries (client s) <= maxInt ->
  Z.of_nat (List.length es) <= MaxRetries (client s) ->
  failed_attempts req es s s1 ->
  fst (send req s1) = (r, None) ->
  (forall fuel,
      (List.length es + 1 <= fuel)%nat ->
      SendRequest fuel req s = Some ((r, None), snd (send req s1))) /\
  count is_send (trace (snd (send req s1))) =
  (count is_send (trace s) + (List.length es + 1))%nat /\
  count is_sleep (trace (snd (send req s1))) =
  (count is_sleep (trace s) + List.length es)%nat /\
  trace (snd (send req s1)) = trace s1 ++ send_events req s1 /\
  count is_sleep (send_events req s1) = 0%nat.
Proof.
  intros Hmax Hlen Hrun Hok.
  pose proof (failed_attempts_client _ _ _ _ Hrun) as Hc.
  destruct (failed_attempts_counts _ _ _ _ Hrun) as [Hsends Hsleeps].
  split; [|split; [|split; [|split]]].
  - intros fuel Hfuel.
    replace fuel with (List.length es + S (fuel - List.length es - 1))%nat
      by lia.
    unfold SendRequest. destruct es as [|e0 es].
    + simpl in Hrun. subst s1. apply loop_success; [simpl in Hlen; lia|exact Hok].
    + rewrite (loop_failed_attempts req (e0 :: es) s s1 0 _ None None e0);
        try assumption; try discriminate; try (rewrite ?minInt_eq; lia).
      rewrite int_incr_lt by (rewrite ?minInt_eq; lia).
      apply loop_success; [rewrite Hc; lia|exact Hok].
  - rewrite send_trace, count_app, send_events_sends, Hsends. lia.
  - rewrite send_trace, count_app, send_events_sleeps, Hsleeps. lia.
  - apply send_trace.
  - apply send_events_sleeps.
Qed.

(** C10.  With [MaxRetries < 0] the loop body never runs: [SendRequest]
    returns a nil response and a nil error in the state it was called in,
    so that no call of [send] and no sleep took place. *)
Theorem SendRequest_negative_MaxRetries req s fuel :
  MaxRetries (client s) < 0 ->
  SendRequest (S fuel) req s = Some ((None, None), s).
Proof. intros HN. unfold SendRequest. apply loop_exit. exact HN. Qed.

(** C6.  The only URL [send] hands to [http.NewRequest] is [BaseURL]
    followed by [Endpoint], character for character, and the request given
    to the transport is the one built for that URL (with the headers
    set). *)
Theorem send_target_url req s :
  let url := String.append (BaseURL (client s)) (APIRequest.Endpoint req) in
  let marshalled :=
    match APIRequest.Body req with
    | Some v => json_Marshal v
    | None => inr []
    end in
  filter is_newrequest (send_events req s) =
  match marshalled with
  | inl _ => []
  | inr reqBody => [EvNewRequest (APIRequest.Method req) url reqBody]
  end /\
  filter is_do (send_events req s) =
  match marshalled with
  | inl _ => []
  | inr reqBody =>
    match http_NewRequest (APIRequest.Method req) url reqBody with
    | inl _ => []
    | inr request =>
      [EvDo (HTTPClient (client s))
         (set_headers (APIRequest.Headers req) request)]
    end
  end.
Proof.
  unfold send_events, with_trace.
  split; send_cases; unfold Sprintf_ss in *; try congruence;
    rewrite ?filter_app; simpl; congruence.
Qed.

(** C7.  [json.Marshal] is called exactly when [req.Body] is not nil; and
    when it fails, [send] returns a nil response and that error having
    done nothing else: the trace gains the entry into [send] and the call
    of [json.Marshal] only (no [http.NewRequest], no round trip) and the
    world is untouched. *)
Theorem send_serialization req s :
  filter is_marshal (send_events req s) =
  match APIRequest.Body req with
  | Some v => [EvMarshal v]
  | None => []
  end /\
  (forall v e,
      APIRequest.Body req = Some v ->
      json_Marshal v = inl e ->
      send req s =
      ((None, Some e), with_trace (trace s ++ [EvSend; EvMarshal v]) s)).
Proof.
  split.
  - unfold send_events, with_trace.
    send_cases; rewrite ?filter_app; simpl; reflexivity.
  - intros v e Hbody Hfail. unfold with_trace. send_unfold.
    rewrite Hbody. simpl. rewrite Hfail. simpl.
    rewrite <- app_assoc. reflexivity.
Qed.

(** C8.  With [Debug] off, no attempt prints anything, whether it succeeds
    or fails: the output is the same after [send] as before it, and the
    same after [SendRequest] as before it. *)
Theorem send_debug_off_silent req s :
  Debug (client s) = false ->
  filter is_printf (send_events req s) = [] /\
  filter is_printf (trace (snd (send req s))) = filter is_printf (trace s) /\
  (forall fuel r s',
      SendRequest fuel req s = Some (r, s') ->
      filter is_printf (trace s') = filter is_printf (trace s)).
Proof.
  intros Hd. pose proof (send_events_quiet req s Hd) as Hq.
  split; [exact Hq|]. split.
  - rewrite send_trace, filter_app, Hq. apply app_nil_r.
  - intros fuel r s' Hloop. exact (loop_quiet _ _ _ _ _ _ _ _ Hd Hloop).
Qed.

End Properties.

(** * The claims on concrete runs *)

Lemma unreachable_send_fails (s0 : State Unreachable.env) :
  snd (fst (send Unreachable.get s0)) = Some "dial tcp: connection refused".
Proof.
  unfold send, logRequest, Do, Printf, bind, ret, field, emit, extern. simpl.
  destruct (Debug (client s0)); reflexivity.
Qed.

Lemma unreachable_all_fail (s0 : State Unreachable.env) :
  snd (fst (send Unreachable.get s0)) <> None.
Proof. rewrite unreachable_send_fails. discriminate. Qed.

Lemma SendRequest_all_attempts_fail_witness :
  0 <= MaxRetries (client (Unreachable.start 2)) < maxInt /\
  exists s_last e,
    fst (send Unreachable.get s_last) = (None, Some e) /\
    (forall fuel,
        (Z.to_nat (MaxRetries (client (Unreachable.start 2))) + 2 <= fuel)%nat ->
        SendRequest fuel Unreachable.get (Unreachable.start 2) =
        Some ((None, Some e), failed_round Unreachable.get s_last)) /\
    count is_send (trace (failed_round Unreachable.get s_last)) =
    (count is_send (trace (Unreachable.start 2)) +
     (Z.to_nat (MaxRetries (client (Unreachable.start 2))) + 1))%nat.
Proof.
  assert (H : 0 <= MaxRetries (client (Unreachable.start 2)) < maxInt)
    by (rewrite maxInt_eq; simpl; lia).
  split; [exact H|].
  apply (SendRequest_all_attempts_fail Unreachable.get (Unreachable.start 2) H).
  exact unreachable_all_fail.
Defined.

(** C1, as stated, fails for [MaxRetries = maxInt]: every call of [send]
    fails, and [SendRequest] never returns, however much fuel it is given
    ([attempt <= c.MaxRetries] holds for every [int]). *)
Lemma SendRequest_maxInt_never_returns :
  0 <= MaxRetries (client (Unreachable.start maxInt)) /\
  (forall s0 : State Unreachable.env,
      snd (fst (send Unreachable.get s0)) <> None) /\
  forall fuel,
    SendRequest fuel Unreachable.get (Unreachable.start maxInt) = None.
Proof.
  split; [simpl; rewrite maxInt_eq; lia|].
  split; [exact unreachable_all_fail|].
  intros fuel. unfold SendRequest. apply loop_maxInt_diverges.
  - reflexivity.
  - exact int_range_0.
  - exact unreachable_all_fail.
Qed.

(** C2 on the code.  With [MaxRetries = 0] and a refused connection,
    [SendRequest] makes its one and only attempt and then sleeps
    [RetryDelay] before it returns the error: one failed attempt, one sleep,
    and the sleep is the last thing that happens.  With [MaxRetries = 1]:
    two failed attempts, two sleeps. *)
Theorem SendRequest_sleeps_after_final_attempt :
  (exists s',
      SendRequest 2 Unreachable.get (Unreachable.start 0) =
      Some ((None, Some "dial tcp: connection refused"), s') /\
      count is_send (trace s') = 1%nat /\
      count is_sleep (trace s') = 1%nat /\
      last (trace s') EvSend = EvSleep (2 * time_Second)) /\
  (exists s',
      SendRequest 3 Unreachable.get (Unreachable.start 1) =
      Some ((None, Some "dial tcp: connection refused"), s') /\
      count is_send (trace s') = 2%nat /\
      count is_sleep (trace s') = 2%nat /\
      last (trace s') EvSend = EvSleep (2 * time_Second)).
Proof.
  split; eexists; (split; [reflexivity|]); repeat split; reflexivity.
Qed.

Lemma SendRequest_status_not_inspected_witness :
  fst (send Scripted.post Scripted.broken) =
  (Some (APIResponse.mk 500 [] []), None) /\
  (forall fuel,
      SendRequest (S fuel) Scripted.post Scripted.broken =
      Some ((Some (APIResponse.mk 500 [] []), None),
            snd (send Scripted.post Scripted.broken))) /\
  count is_send (trace (snd (send Scripted.post Scripted.broken))) =
  S (count is_send (trace Scripted.broken)) /\
  count is_sleep (trace (snd (send Scripted.post Scripted.broken))) =
  count is_sleep (trace Scripted.broken).
Proof.
  apply (SendRequest_status_not_inspected (env := Scripted.env)
           Scripted.post Scripted.broken
           (list_byte_of_string "{}")
           (http.Request.mk "POST" "https://api.example.com/data" []
              (list_byte_of_string "{}"))
           (http.Response.mk "500 Internal Server Error" 500 [] (inr []))
           [] [] []).
  - simpl. lia.
  - reflexivity.
  - reflexivity.
  - reflexivity.
  - reflexivity.
Defined.

Lemma SendRequest_error_is_last_attempt_witness :
  int_range (MaxRetries (client Scripted.flaky)) /\
  exists fuel,
    SendRequest fuel Scripted.post Scripted.flaky =
    Some ((None, Some "unexpected EOF"),
          failed_round Scripted.post
            (failed_round Scripted.post Scripted.flaky)).
Proof.
  assert (H : int_range (MaxRetries (client Scripted.flaky)))
    by (unfold int_range; rewrite minInt_eq, maxInt_eq; simpl; lia).
  split; [exact H|].
  apply (proj2 (SendRequest_error_is_last_attempt
                  Scripted.post Scripted.flaky H)).
  split; [rewrite maxInt_eq; simpl; lia|].
  split; [reflexivity|].
  exists ["context deadline exceeded"]. split; [reflexivity|].
  simpl. repeat split; reflexivity.
Defined.

Lemma SendRequest_first_success_witness :
  (forall fuel,
      (2 <= fuel)%nat ->
      SendRequest fuel Scripted.post Scripted.recovering =
      Some ((Some (APIResponse.mk 200 [] []), None),
            snd (send Scripted.post
                   (failed_round Scripted.post Scripted.recovering)))) /\
  count is_send
    (trace (snd (send Scripted.post
                   (failed_round Scripted.post Scripted.recovering)))) = 2%nat /\
  count is_sleep
    (trace (snd (send Scripted.post
                   (failed_round Scripted.post Scripted.recovering)))) = 1%nat.
Proof.
  destruct (SendRequest_first_success (env := Scripted.env)
              Scripted.post Scripted.recovering
              ["context deadline exceeded"]
              (failed_round Scripted.post Scripted.recovering)
              (Some (APIResponse.mk 200 [] [])))
    as [Hret [Hsends [Hsleeps _]]].
  - rewrite maxInt_eq. simpl. lia.
  - simpl. lia.
  - simpl. split; reflexivity.
  - reflexivity.
  - split; [exact Hret|]. split; [exact Hsends|exact Hsleeps].
Defined.

Lemma send_target_url_witness :
  filter is_newrequest (send_events Scripted.post Scripted.slashed) =
  [EvNewRequest "POST" "https://api.example.com//data"
     (list_byte_of_string "{}")].
Proof.
  exact (proj1 (send_target_url Scripted.post Scripted.slashed)).
Defined.

Lemma send_serialization_witness :
  send (Scripted.request (Some Scripted.VChan)) (Scripted.start true 3 []) =
  ((None, Some "json: unsupported type: chan int"),
   with_trace [@EvSend Scripted.env; @EvMarshal Scripted.env Scripted.VChan]
     (Scripted.start true 3 [])).
Proof.
  apply (proj2 (send_serialization (env := Scripted.env)
                  (Scripted.request (Some Scripted.VChan))
                  (Scripted.start true 3 []))
           Scripted.VChan "json: unsupported type: chan int").
  - reflexivity.
  - reflexivity.
Defined.

Lemma send_debug_off_silent_witness :
  Debug (client Scripted.recovering) = false /\
  filter is_printf (send_events Scripted.post Scripted.recovering) = [] /\
  filter is_printf (trace (snd (send Scripted.post Scripted.recovering))) =
  filter is_printf (trace Scripted.recovering) /\
  (forall fuel r s',
      SendRequest fuel Scripted.post Scripted.recovering = Some (r, s') ->
      filter is_printf (trace s') = filter is_printf (trace Scripted.recovering)).
Proof.
  split; [reflexivity|].
  apply (send_debug_off_silent Scripted.post Scripted.recovering).
  reflexivity.
Defined.

Lemma SendRequest_negative_MaxRetries_witness :
  MaxRetries (client (Unreachable.start (-1))) < 0 /\
  SendRequest 1 Unreachable.get (Unreachable.start (-1)) =
  Some ((None, None), Unreachable.start (-1)).
Proof.
  assert (H : MaxRetries (client (Unreachable.start (-1))) < 0)
    by (simpl; lia).
  split; [exact H|].
  exact (SendRequest_negative_MaxRetries
           Unreachable.get (Unreachable.start (-1)) 0 H).
Defined.

(** * Beyond the claims *)

Section MoreProperties.

Context {env : Env}.

Implicit Types (req : APIRequest.t any) (s : State env).

Ltac run_send :=
  unfold send, logRequest, logResponse, Do, ReadAll, Close, Printf,
    time_Sleep, bind, ret, field, emit, extern in *;
  simpl in *;
  repeat match goal with
    | |- context [match ?x with _ => _ end] =>
      lazymatch x with
      | context [match _ with _ => _ end] => fail
      | _ => destruct x eqn:?; simpl in *
      end
    end.

(** ** The header loop *)

Lemma Header_lookup_Set_same key value h :
  Header_lookup (CanonicalMIMEHeaderKey key) (Header_Set key value h) =
  Some [value].
Proof.
  unfold Header_lookup, Header_Set. simpl. rewrite String.eqb_refl. reflexivity.
Qed.

Lemma Header_lookup_Set_other k0 key value h :
  k0 <> CanonicalMIMEHeaderKey key ->
  Header_lookup k0 (Header_Set key value h) = Header_lookup k0 h.
Proof.
  intros Hk. unfold Header_lookup, Header_Set. simpl.
  destruct (String.eqb_spec (CanonicalMIMEHeaderKey key) k0) as [Heq|_];
    [congruence|].
  induction h as [|[k1 v1] h IH]; simpl; [reflexivity|].
  destruct (String.eqb_spec k1 (CanonicalMIMEHeaderKey key)) as [Hk1|Hk1];
    simpl.
  - destruct (String.eqb_spec k1 k0) as [Heq|_]; [congruence|exact IH].
  - destruct (String.eqb_spec k1 k0); [reflexivity|exact IH].
Qed.

Lemma set_headers_cons kv hs (request : http.Request.t) :
  set_headers (kv :: hs) request = set_headers hs (Request_Header_Set request kv).
Proof. reflexivity. Qed.

Lemma set_headers_app hs1 hs2 (request : http.Request.t) :
  set_headers (hs1 ++ hs2) request = set_headers hs2 (set_headers hs1 request).
Proof. unfold set_headers. apply fold_left_app. Qed.

Lemma set_headers_fields hs :
  forall request : http.Request.t,
    http.Request.Method (set_headers hs request) = http.Request.Method request /\
    http.Request.URL (set_headers hs request) = http.Request.URL request /\
    http.Request.Body (set_headers hs request) = http.Request.Body request.
Proof.
  induction hs as [|kv hs IH]; intros request; [simpl; auto|].
  rewrite set_headers_cons. destruct (IH (Request_Header_Set request kv))
    as [Hm [Hu Hb]]. rewrite Hm, Hu, Hb. simpl. auto.
Qed.

Lemma set_headers_lookup_other k0 hs :
  forall request : http.Request.t,
    (forall kv, In kv hs -> CanonicalMIMEHeaderKey (fst kv) <> k0) ->
    Header_lookup k0 (http.Request.Header (set_headers hs request)) =
    Header_lookup k0 (http.Request.Header request).
Proof.
  induction hs as [|kv hs IH]; intros request Hk; [reflexivity|].
  rewrite set_headers_cons, IH by (intros kv' Hin; apply Hk; right; exact Hin).
  simpl. apply Header_lookup_Set_other.
  intros Heq. apply (Hk kv); [left; reflexivity|symmetry; exact Heq].
Qed.

Lemma set_headers_lookup_last hs1 k v hs2 (request : http.Request.t) :
  (forall kv, In kv hs2 ->
              CanonicalMIMEHeaderKey (fst kv) <> CanonicalMIMEHeaderKey k) ->
  Header_lookup (CanonicalMIMEHeaderKey k)
    (http.Request.Header (set_headers (hs1 ++ (k, v) :: hs2) request)) =
  Some [v].
Proof.
  intros Hk. rewrite set_headers_app, set_headers_cons.
  rewrite set_headers_lookup_other by exact Hk.
  simpl. apply Header_lookup_Set_same.
Qed.

(** The request [send] hands to the transport is the one [http.NewRequest]
    built, with the headers set. *)
Lemma send_do_request req s hc request :
  In (EvDo hc request) (send_events req s) ->
  hc = HTTPClient (client s) /\
  exists reqBody request0,
    http_NewRequest (APIRequest.Method req)
      (String.append (BaseURL (client s)) (APIRequest.Endpoint req)) reqBody =
    inr request0 /\
    request = set_headers (APIRequest.Headers req) request0.
Proof.
  unfold send_events, with_trace. run_send; unfold Sprintf_ss in *;
    intros Hin;
    repeat (destruct Hin as [Hin|Hin]; try discriminate Hin);
    try contradiction;
    inversion Hin; subst; (split; [reflexivity|]); eauto.
Qed.

(** X1.  Every header of the request reaches the transport: the request
    given to [Do] maps the canonical form of the key to the one value set,
    the entry visited last winning when two keys have the same canonical
    form. *)
Theorem send_headers_reach_transport req s hc request hs1 k v hs2 :
  In (EvDo hc request) (send_events req s) ->
  APIRequest.Headers req = hs1 ++ (k, v) :: hs2 ->
  (forall kv, In kv hs2 ->
              CanonicalMIMEHeaderKey (fst kv) <> CanonicalMIMEHeaderKey k) ->
  Header_lookup (CanonicalMIMEHeaderKey k) (http.Request.Header request) =
  Some [v].
Proof.
  intros Hdo Hhs Hlast.
  destruct (send_do_request _ _ _ _ Hdo) as [_ [reqBody [request0 [_ Hreq]]]].
  subst request. rewrite Hhs. apply set_headers_lookup_last. exact Hlast.
Qed.

(** X2.  The header loop changes nothing else: the request given to [Do]
    has the method, URL and body of the request [http.NewRequest] built for
    [BaseURL ++ Endpoint], and a header whose key is the canonical form of
    no key of [req.Headers] keeps the value [http.NewRequest] gave it. *)
Theorem send_keeps_built_request req s hc request :
  In (EvDo hc request) (send_events req s) ->
  exists reqBody request0,
    http_NewRequest (APIRequest.Method req)
      (String.append (BaseURL (client s)) (APIRequest.Endpoint req)) reqBody =
    inr request0 /\
    http.Request.Method request = http.Request.Method request0 /\
    http.Request.URL request = http.Request.URL request0 /\
    http.Request.Body request = http.Request.Body request0 /\
    forall k0,
      (forall kv, In kv (APIRequest.Headers req) ->
                  CanonicalMIMEHeaderKey (fst kv) <> k0) ->
      Header_lookup k0 (http.Request.Header request) =
      Header_lookup k0 (http.Request.Header request0).
Proof.
  intros Hdo.
  destruct (send_do_request _ _ _ _ Hdo) as [_ [reqBody [request0 [Hnew Hreq]]]].
  exists reqBody, request0. subst request.
  destruct (set_headers_fields (APIRequest.Headers req) request0)
    as [Hm [Hu Hb]].
  repeat split; try assumption.
  intros k0 Hk. apply set_headers_lookup_other. exact Hk.
Qed.

(** X3.  [send] returns either a response with a nil error or a nil
    response with an error, never both and never neither. *)
Theorem send_response_xor_error req s :
  (exists r, fst (send req s) = (Some r, None)) \/
  (exists e, fst (send req s) = (None, Some e)).
Proof. run_send; eauto. Qed.

(** X4.  [send] reads and closes the body of the response [Do] returned,
    once each, the close being the last thing it does, also when the read
    fails; when [Do] fails or is not reached, nothing is read or closed. *)
Theorem send_closes_body req s :
  (count is_do (send_events req s) = 0%nat ->
   count is_readall (send_events req s) = 0%nat /\
   count is_close (send_events req s) = 0%nat) /\
  (forall hc request,
      In (EvDo hc request) (send_events req s) ->
      match fst (Client_Do hc request (world s)) with
      | inl _ =>
        count is_readall (send_events req s) = 0%nat /\
        count is_close (send_events req s) = 0%nat
      | inr response =>
        filter is_readall (send_events req s) =
        [EvReadAll (http.Response.Body response)] /\
        filter is_close (send_events req s) =
        [EvClose (http.Response.Body response)] /\
        last (send_events req s) EvSend =
        EvClose (http.Response.Body response)
      end).
Proof.
  unfold send_events, with_trace, count. split.
  - run_send; rewrite ?filter_app; simpl; intros H;
      try discriminate H; auto.
  - intros hc request.
    run_send; intros Hin;
      repeat (destruct Hin as [Hin|Hin]; try discriminate Hin);
      try contradiction;
      inversion Hin; subst;
      repeat match goal with
        | H1 : ?x = _, H2 : fst ?x = _ |- _ => rewrite H1 in H2; simpl in H2
        end;
      try discriminate;
      repeat match goal with
        | H : inr _ = inr _ |- _ => inversion H; subst; clear H
        end;
      rewrite ?filter_app; simpl; auto.
Qed.

(** X5.  With [Debug] on, one call of [send] prints no line when it fails
    before the transport is reached, the four request lines when the round
    trip or the body read fails, and seven lines (request, then response)
    when it succeeds. *)
Theorem send_debug_lines req s :
  Debug (client s) = true ->
  List.length (printed (send_events req s)) =
  match preflight_error req s with
  | Some _ => 0%nat
  | None =>
    match snd (fst (send req s)) with
    | Some _ => 4%nat
    | None => 7%nat
    end
  end.
Proof.
  intros Hd. rewrite (send_with_trace req s).
  unfold send_events, with_trace, preflight_error.
  run_send; try congruence; reflexivity.
Qed.

(** X6.  With [Debug] on, a successful attempt prints the method, URL,
    headers and body of the outgoing request, then the status line, headers
    and body of the response, one per line and in this order. *)
Theorem send_debug_output
    req s reqBody request0 response w1 respBody w2 :
  Debug (client s) = true ->
  match APIRequest.Body req with
  | Some v => json_Marshal v = inr reqBody
  | None => reqBody = []
  end ->
  http_NewRequest (APIRequest.Method req)
    (String.append (BaseURL (client s)) (APIRequest.Endpoint req)) reqBody =
  inr request0 ->
  Client_Do (HTTPClient (client s))
    (set_headers (APIRequest.Headers req) request0) (world s) =
  (inr response, w1) ->
  ioutil_ReadAll (http.Response.Body response) w1 = (inr respBody, w2) ->
  let request := set_headers (APIRequest.Headers req) request0 in
  printed (send_events req s) =
  [ Sprintf_line "Request Method: " (http.Request.Method request);
    Sprintf_line "Request URL: " (http.Request.URL request);
    Sprintf_line "Request Headers: "
      (Sprint_Header (http.Request.Header request));
    Sprintf_line "Request Body: " (string_of_list_byte reqBody);
    Sprintf_line "Response Status: " (http.Response.Status response);
    Sprintf_line "Response Headers: "
      (Sprint_Header (http.Response.Header response));
    Sprintf_line "Response Body: " (string_of_list_byte respBody) ].
Proof.
  intros Hd Hbody Hnew Hdo Hread request. subst request.
  unfold send_events, with_trace.
  run_send; unfold Sprintf_ss in *; subst; try congruence;
    repeat match goal with
      | H : inr _ = inr _ |- _ => inversion H; subst; clear H
      | H : (_, _) = (_, _) |- _ => inversion H; subst; clear H
      | H1 : ?x = _, H2 : ?x = _ |- _ => rewrite H1 in H2
      end; try congruence; try reflexivity.
Qed.

(** ** Runs of the retry loop *)

Lemma send_response_ok req s :
  snd (fst (send req s)) = None -> exists r, fst (fst (send req s)) = Some r.
Proof. run_send; intros H; try discriminate H; eauto. Qed.

Lemma send_events_do req s : (count is_do (send_events req s) <= 1)%nat.
Proof.
  unfold send_events, with_trace, count.
  run_send; rewrite ?filter_app; simpl; lia.
Qed.

Lemma send_events_no_sleep req s : filter is_sleep (send_events req s) = [].
Proof.
  apply length_zero_iff_nil. exact (send_events_sleeps req s).
Qed.

Lemma failed_round_sleeps req s :
  filter is_sleep (trace (failed_round req s)) =
  filter is_sleep (trace s) ++ [EvSleep (RetryDelay (client s))].
Proof.
  rewrite failed_round_trace, !filter_app, send_events_no_sleep. reflexivity.
Qed.

Lemma failed_round_do req s :
  (count is_do (trace (failed_round req s)) <= S (count is_do (trace s)))%nat.
Proof.
  rewrite failed_round_trace, !count_app.
  pose proof (send_events_do req s). unfold count at 3. simpl. lia.
Qed.

Lemma repeat_snoc {A : Type} (a : A) (n : nat) :
  a :: repeat a n = repeat a n ++ [a].
Proof. induction n as [|n IH]; simpl; [reflexivity|]. rewrite <- IH. reflexivity. Qed.

(** More fuel does not change what the loop returns. *)
Lemma loop_more_fuel req fuel :
  forall i r0 err0 s x,
    SendRequest_loop fuel req i r0 err0 s = Some x ->
    SendRequest_loop (S fuel) req i r0 err0 s = Some x.
Proof.
  induction fuel as [|fuel IH]; intros i r0 err0 s x Hloop; [discriminate|].
  destruct (Z.le_gt_cases i (MaxRetries (client s))) as [Hle|Hgt].
  - destruct (snd (fst (send req s))) as [e|] eqn:He.
    + rewrite (loop_failure fuel _ _ _ _ _ e Hle He) in Hloop.
      rewrite (loop_failure (S fuel) _ _ _ _ _ e Hle He).
      apply IH. exact Hloop.
    + assert (Hs : fst (send req s) = (fst (fst (send req s)), None))
        by (destruct (send req s) as [[r1 e1] s1]; simpl in *; congruence).
      rewrite (loop_success fuel _ _ _ _ _ _ Hle Hs) in Hloop.
      rewrite (loop_success (S fuel) _ _ _ _ _ _ Hle Hs). exact Hloop.
  - rewrite (loop_exit fuel) in Hloop by lia.
    rewrite (loop_exit (S fuel)) by lia. exact Hloop.
Qed.

Lemma loop_fuel_le req fuel fuel' i r0 err0 s x :
  (fuel <= fuel')%nat ->
  SendRequest_loop fuel req i r0 err0 s = Some x ->
  SendRequest_loop fuel' req i r0 err0 s = Some x.
Proof.
  intros Hle Hloop. induction Hle as [|fuel' _ IH]; [exact Hloop|].
  apply loop_more_fuel. exact IH.
Qed.

(** Unless [MaxRetries] is the largest [int], the loop returns, whatever
    the attempts do, once it has fuel for the tests that are left. *)
Lemma loop_returns req fuel :
  forall i r0 err0 s,
    minInt <= i ->
    MaxRetries (client s) < maxInt ->
    MaxRetries (client s) - i + 1 < Z.of_nat fuel ->
    (0 < fuel)%nat ->
    exists x, SendRequest_loop fuel req i r0 err0 s = Some x.
Proof.
  induction fuel as [|fuel IH]; intros i r0 err0 s Hi HN Hfuel Hpos; [lia|].
  destruct (Z.le_gt_cases i (MaxRetries (client s))) as [Hle|Hgt].
  - destruct (snd (fst (send req s))) as [e|] eqn:He.
    + rewrite (loop_failure _ _ _ _ _ _ e Hle He).
      rewrite int_incr_lt by lia.
      apply IH; rewrite ?failed_round_client; lia.
    + assert (Hs : fst (send req s) = (fst (fst (send req s)), None))
        by (destruct (send req s) as [[r1 e1] s1]; simpl in *; congruence).
      rewrite (loop_success fuel _ _ _ _ _ _ Hle Hs). eauto.
  - rewrite loop_exit by lia. eauto.
Qed.

(** What a returning run adds to the trace, by the index the loop is
    entered with. *)
Lemma loop_counts req fuel :
  forall i r0 err0 s r err s',
    minInt <= i ->
    MaxRetries (client s) < maxInt ->
    SendRequest_loop fuel req i r0 err0 s = Some ((r, err), s') ->
    (MaxRetries (client s) < i /\ s' = s /\ r = r0 /\ err = err0) \/
    (i <= MaxRetries (client s) /\
     exists k : nat,
       count is_send (trace s') = (count is_send (trace s) + k)%nat /\
       (1 <= k)%nat /\
       Z.of_nat k <= MaxRetries (client s) - i + 1 /\
       (err <> None -> Z.of_nat k = MaxRetries (client s) - i + 1) /\
       (count is_do (trace s') <= count is_do (trace s) + k)%nat).
Proof.
  induction fuel as [|fuel IH]; intros i r0 err0 s r err s' Hi HN Hloop;
    [discriminate|].
  destruct (Z.le_gt_cases i (MaxRetries (client s))) as [Hle|Hgt].
  - right. split; [exact Hle|].
    destruct (snd (fst (send req s))) as [e|] eqn:He.
    + rewrite (loop_failure _ _ _ _ _ _ e Hle He) in Hloop.
      rewrite int_incr_lt in Hloop by lia.
      apply IH in Hloop; rewrite ?failed_round_client; try lia.
      rewrite failed_round_client in Hloop.
      destruct (failed_round_counts req s) as [Hsend _].
      pose proof (failed_round_do req s) as Hdo.
      destruct Hloop as [[Hlt [Hs [Hr Herr]]]|[Hle' [k [Hk [H1 [H2 [H3 H4]]]]]]].
      * subst s'. exists 1%nat. repeat split; try lia.
      * exists (S k). repeat split; try lia. intros Hne. apply H3 in Hne. lia.
    + pose proof (send_trace req s) as Ht.
      pose proof (send_events_sends req s) as Hsends.
      pose proof (send_events_do req s) as Hdo.
      simpl in Hloop.
      destruct (Z.leb_spec i (MaxRetries (client s))); [|lia].
      destruct (send req s) as [[r1 e1] s1]. simpl in *. subst e1.
      inversion Hloop; subst. exists 1%nat.
      rewrite Ht, !count_app, Hsends. repeat split; try lia. congruence.
  - left. rewrite loop_exit in Hloop by lia. inversion Hloop; subst. auto.
Qed.

(** The result and the sleeps of a returning run, for every [MaxRetries]. *)
Lemma loop_sleeps req fuel :
  forall i r0 err0 s r err s',
    SendRequest_loop fuel req i r0 err0 s = Some ((r, err), s') ->
    (s' = s /\ r = r0 /\ err = err0) \/
    (exists k : nat,
        filter is_sleep (trace s') =
        filter is_sleep (trace s) ++ repeat (EvSleep (RetryDelay (client s))) k /\
        count is_send (trace s') =
        (count is_send (trace s) + k +
         match err with None => 1 | Some _ => 0 end)%nat /\
        match err with
        | None => r <> None
        | Some _ => r = None /\ (1 <= k)%nat
        end).
Proof.
  induction fuel as [|fuel IH]; intros i r0 err0 s r err s' Hloop;
    [discriminate|].
  destruct (Z.le_gt_cases i (MaxRetries (client s))) as [Hle|Hgt].
  - right. destruct (snd (fst (send req s))) as [e|] eqn:He.
    + rewrite (loop_failure _ _ _ _ _ _ e Hle He) in Hloop.
      apply IH in Hloop. rewrite failed_round_client in Hloop.
      destruct (failed_round_counts req s) as [Hsend _].
      pose proof (failed_round_sleeps req s) as Hsl.
      destruct Hloop as [[Hs [Hr Herr]]|[k [Hk [Hc Hres]]]].
      * subst. exists 1%nat. rewrite Hsl, Hsend. simpl.
        repeat split; try lia.
      * exists (S k). rewrite Hk, Hsl, Hc, Hsend, <- app_assoc.
        change ([EvSleep (RetryDelay (client s))] ++
                repeat (EvSleep (RetryDelay (client s))) k)
          with (repeat (EvSleep (RetryDelay (client s))) (S k)).
        repeat split; try lia.
        destruct err; [destruct Hres; split; [assumption|lia]|exact Hres].
    + pose proof (send_trace req s) as Ht.
      pose proof (send_events_sends req s) as Hsends.
      destruct (send_response_ok req s He) as [r' Hr'].
      simpl in Hloop.
      destruct (Z.leb_spec i (MaxRetries (client s))); [|lia].
      destruct (send req s) as [[r1 e1] s1]. simpl in *. subst e1.
      inversion Hloop; subst. exists 0%nat.
      rewrite Ht, filter_app, send_events_no_sleep, count_app, Hsends.
      simpl. repeat split; try lia. congruence.
  - left. rewrite loop_exit in Hloop by lia. inversion Hloop; subst. auto.
Qed.

(** With [MaxRetries >= 0] the first attempt is made, so that a returning
    run is some failed attempts, each with its sleep, closed by a success or
    by the last failure. *)
Lemma SendRequest_run req s fuel r err s' :
  0 <= MaxRetries (client s) ->
  SendRequest fuel req s = Some ((r, err), s') ->
  exists k : nat,
    filter is_sleep (trace s') =
    filter is_sleep (trace s) ++ repeat (EvSleep (RetryDelay (client s))) k /\
    count is_send (trace s') =
    (count is_send (trace s) + k +
     match err with None => 1 | Some _ => 0 end)%nat /\
    match err with
    | None => r <> None
    | Some _ => r = None /\ (1 <= k)%nat
    end.
Proof.
  intros HN Hloop. unfold SendRequest in Hloop.
  destruct fuel as [|fuel]; [discriminate|].
  destruct (snd (fst (send req s))) as [e|] eqn:He.
  - rewrite (loop_failure _ _ _ _ _ _ e HN He) in Hloop.
    apply loop_sleeps in Hloop. rewrite failed_round_client in Hloop.
    destruct (failed_round_counts req s) as [Hsend _].
    pose proof (failed_round_sleeps req s) as Hsl.
    destruct Hloop as [[Hs [Hr Herr]]|[k [Hk [Hc Hres]]]].
    + subst. exists 1%nat. rewrite Hsl, Hsend. simpl. repeat split; lia.
    + exists (S k). rewrite Hk, Hsl, Hc, Hsend, <- app_assoc.
      change ([EvSleep (RetryDelay (client s))] ++
              repeat (EvSleep (RetryDelay (client s))) k)
        with (repeat (EvSleep (RetryDelay (client s))) (S k)).
      repeat split; try lia.
      destruct err; [destruct Hres; split; [assumption|lia]|exact Hres].
  - pose proof (send_trace req s) as Ht.
    pose proof (send_events_sends req s) as Hsends.
    destruct (send_response_ok req s He) as [r' Hr'].
    assert (Hs : fst (send req s) = (Some r', None))
      by (destruct (send req s) as [[r1 e1] s1]; simpl in *; congruence).
    rewrite (loop_success _ _ _ _ _ _ _ HN Hs) in Hloop.
    inversion Hloop; subst. exists 0%nat.
    rewrite Ht, filter_app, send_events_no_sleep, count_app, Hsends.
    simpl. repeat split; try lia. discriminate.
Qed.

(** X7.  Unless [MaxRetries] is the largest [int], [SendRequest] returns,
    whatever the server and the network do: fuel for [MaxRetries + 2] tests
    of the loop condition is enough, and more fuel gives the same result. *)
Theorem SendRequest_returns req s :
  MaxRetries (client s) < maxInt ->
  exists res s',
    forall fuel,
      (Z.to_nat (MaxRetries (client s)) + 2 <= fuel)%nat ->
      SendRequest fuel req s = Some (res, s').
Proof.
  intros HN.
  destruct (loop_returns req (Z.to_nat (MaxRetries (client s)) + 2)
              0 None None s) as [[res s'] Hloop];
    try (rewrite ?minInt_eq; lia).
  exists res, s'. intros fuel Hfuel. unfold SendRequest.
  exact (loop_fuel_le _ _ _ _ _ _ _ _ Hfuel Hloop).
Qed.

(** X8.  With [0 <= MaxRetries < maxInt], a call of [SendRequest] that
    returns has made at least one and at most [MaxRetries + 1] calls of
    [send], exactly [MaxRetries + 1] when it returns an error, and at most
    one round trip per call of [send]. *)
Theorem SendRequest_attempt_bounds req s fuel r err s' :
  0 <= MaxRetries (client s) < maxInt ->
  SendRequest fuel req s = Some ((r, err), s') ->
  exists k : nat,
    count is_send (trace s') = (count is_send (trace s) + k)%nat /\
    (1 <= k)%nat /\
    Z.of_nat k <= MaxRetries (client s) + 1 /\
    (err <> None -> Z.of_nat k = MaxRetries (client s) + 1) /\
    (count is_do (trace s') <= count is_do (trace s) + k)%nat.
Proof.
  intros [HN0 HN] Hloop. unfold SendRequest in Hloop.
  apply loop_counts in Hloop; try (rewrite ?minInt_eq; lia).
  destruct Hloop as [[Hlt _]|[_ [k [Hk [H1 [H2 [H3 H4]]]]]]]; [lia|].
  exists k. repeat split; try assumption; try lia.
  intros Hne. apply H3 in Hne. lia.
Qed.

(** X9.  [SendRequest] returns a nil response together with a nil error
    exactly when [MaxRetries < 0]; otherwise it returns either a response
    and a nil error, or a nil response and an error. *)
Theorem SendRequest_result_shape req s fuel r err s' :
  SendRequest fuel req s = Some ((r, err), s') ->
  (MaxRetries (client s) < 0 /\ r = None /\ err = None) \/
  (0 <= MaxRetries (client s) /\
   ((r <> None /\ err = None) \/ (r = None /\ err <> None))).
Proof.
  intros Hloop.
  destruct (Z.lt_ge_cases (MaxRetries (client s)) 0) as [Hneg|Hpos].
  - left. split; [exact Hneg|]. unfold SendRequest in Hloop.
    destruct fuel as [|fuel]; [discriminate|].
    rewrite loop_exit in Hloop by exact Hneg. inversion Hloop. auto.
  - right. split; [exact Hpos|].
    destruct (SendRequest_run _ _ _ _ _ _ Hpos Hloop) as [k [_ [_ Hres]]].
    destruct err as [e|].
    + right. destruct Hres. split; [assumption|discriminate].
    + left. auto.
Qed.

(** X10.  With [MaxRetries >= 0], [SendRequest] sleeps once per failed
    attempt and never otherwise, each time for exactly [RetryDelay]: after
    [k] sleeps it has called [send] [k + 1] times when it returns a
    response, and [k] times when it returns an error. *)
Theorem SendRequest_one_sleep_per_failure req s fuel r err s' :
  0 <= MaxRetries (client s) ->
  SendRequest fuel req s = Some ((r, err), s') ->
  exists k : nat,
    filter is_sleep (trace s') =
    filter is_sleep (trace s) ++ repeat (EvSleep (RetryDelay (client s))) k /\
    count is_send (trace s') =
    (count is_send (trace s) + k +
     match err with None => 1 | Some _ => 0 end)%nat.
Proof.
  intros HN Hloop.
  destruct (SendRequest_run _ _ _ _ _ _ HN Hloop) as [k [Hk [Hc _]]].
  exists k. auto.
Qed.

(** ** Failures before the transport *)

Lemma preflight_send req s e :
  preflight_error req s = Some e ->
  snd (fst (send req s)) = Some e /\
  world (snd (send req s)) = world s /\
  count is_do (send_events req s) = 0%nat.
Proof.
  rewrite (send_with_trace req s).
  unfold preflight_error, send_events, with_trace, count.
  run_send; intros H; try discriminate H; inversion H; subst; auto.
Qed.

Lemma preflight_failed_round req s e :
  preflight_error req s = Some e ->
  preflight_error req (failed_round req s) = Some e /\
  world (failed_round req s) = world s /\
  count is_do (trace (failed_round req s)) = count is_do (trace s).
Proof.
  intros Hpre. destruct (preflight_send _ _ _ Hpre) as [_ [Hw Hdo]].
  split; [|split].
  - unfold preflight_error in *. rewrite failed_round_client. exact Hpre.
  - unfold failed_round. destruct (send req s) as [r s1]. simpl in *. exact Hw.
  - rewrite failed_round_trace, !count_app, Hdo. unfold count. simpl. lia.
Qed.

Lemma preflight_attempts req e n :
  forall s,
    preflight_error req s = Some e ->
    exists s',
      failed_attempts req (repeat e n) s s' /\
      world s' = world s /\
      count is_do (trace s') = count is_do (trace s).
Proof.
  induction n as [|n IH]; intros s Hpre.
  - exists s. simpl. auto.
  - destruct (preflight_send _ _ _ Hpre) as [He _].
    destruct (preflight_failed_round _ _ _ Hpre) as [Hpre' [Hw Hdo]].
    destruct (IH _ Hpre') as [s' [Hrun [Hw' Hdo']]].
    exists s'. simpl. repeat split; try assumption; congruence.
Qed.

Lemma last_repeat {A : Type} (a d : A) (n : nat) : last (repeat a (S n)) d = a.
Proof.
  induction n as [|n IH]; [reflexivity|].
  change (repeat a (S (S n))) with (a :: repeat a (S n)).
  change (last (a :: repeat a (S n)) d) with (last (repeat a (S n)) d).
  exact IH.
Qed.

(** X11.  A failure of [json.Marshal] or of [http.NewRequest] (an invalid
    method, a malformed URL) is retried like any other: with
    [0 <= MaxRetries < maxInt], [SendRequest] makes all [MaxRetries + 1]
    attempts and as many sleeps, never reaches the transport, leaves the
    outside world as it was, and returns that same error. *)
Theorem SendRequest_preflight_failure req s e :
  0 <= MaxRetries (client s) < maxInt ->
  preflight_error req s = Some e ->
  exists s',
    (forall fuel,
        (Z.to_nat (MaxRetries (client s)) + 2 <= fuel)%nat ->
        SendRequest fuel req s = Some ((None, Some e), s')) /\
    world s' = world s /\
    count is_do (trace s') = count is_do (trace s) /\
    count is_send (trace s') =
    (count is_send (trace s) + (Z.to_nat (MaxRetries (client s)) + 1))%nat /\
    count is_sleep (trace s') =
    (count is_sleep (trace s) + (Z.to_nat (MaxRetries (client s)) + 1))%nat.
Proof.
  intros [HN0 HN] Hpre.
  destruct (preflight_attempts req e (S (Z.to_nat (MaxRetries (client s)))) s Hpre)
    as [s' [Hrun [Hw Hdo]]].
  destruct (failed_attempts_counts _ _ _ _ Hrun) as [Hsends Hsleeps].
  rewrite repeat_length in Hsends, Hsleeps.
  exists s'. repeat split; try assumption; try lia.
  intros fuel Hfuel.
  replace fuel with
    (List.length (repeat e (S (Z.to_nat (MaxRetries (client s))))) +
     S (fuel - Z.to_nat (MaxRetries (client s)) - 2))%nat
    by (rewrite repeat_length; lia).
  unfold SendRequest.
  rewrite (loop_failed_attempts req _ s s' 0 _ None None e);
    try assumption; try discriminate; try lia;
    try (rewrite ?repeat_length, ?minInt_eq; lia).
  rewrite repeat_length, int_incr_lt by (rewrite ?minInt_eq; lia).
  rewrite loop_exit
    by (rewrite (failed_attempts_client _ _ _ _ Hrun); lia).
  rewrite last_repeat. reflexivity.
Qed.

(** ** [main] of [example.go] *)


(** ** More on runs *)

(** X13.  With [MaxRetries] the largest [int], [SendRequest] never gives
    up: when it returns, it returns a response and a nil error. *)
Theorem SendRequest_maxInt_never_gives_up req s fuel r err s' :
  MaxRetries (client s) = maxInt ->
  SendRequest fuel req s = Some ((r, err), s') ->
  err = None /\ r <> None.
Proof.
  intros HN Hloop.
  assert (Herr : err = None).
  { destruct err as [e|]; [exfalso|reflexivity].
    unfold SendRequest in Hloop.
    apply loop_error_inv in Hloop;
      [|exact int_range_0
       |unfold int_range; rewrite HN, minInt_eq, maxInt_eq; lia].
    destruct Hloop as [[_ [_ [Habs _]]]|[_ [Hlt _]]]; [discriminate|lia]. }
  split; [exact Herr|]. subst err.
  assert (H0 : 0 <= MaxRetries (client s)) by (rewrite HN, maxInt_eq; lia).
  destruct (SendRequest_run _ _ _ _ _ _ H0 Hloop) as [k [_ [_ Hres]]].
  exact Hres.
Qed.

(** ** The [Debug] flag *)

Lemma send_agree req s1 s2 :
  agree_but_debug s1 s2 ->
  fst (send req s1) = fst (send req s2) /\
  agree_but_debug (snd (send req s1)) (snd (send req s2)).
Proof.
  destruct s1 as [[b1 h1 d1 m1 t1] w1 tr1], s2 as [[b2 h2 d2 m2 t2] w2 tr2].
  unfold agree_but_debug. simpl.
  intros [Hb [Hh [Hm [Ht [Hw Htr]]]]]. subst.
  run_send; rewrite ?filter_app; simpl; rewrite ?app_nil_r;
    repeat split; congruence.
Qed.

Lemma sleep_agree d (s1 s2 : State env) :
  agree_but_debug s1 s2 ->
  agree_but_debug (snd (time_Sleep d s1)) (snd (time_Sleep d s2)).
Proof.
  unfold agree_but_debug, time_Sleep, emit. simpl.
  intros [Hb [Hh [Hm [Ht [Hw Htr]]]]].
  rewrite !filter_app, Htr. repeat split; assumption.
Qed.

Lemma loop_agree req fuel :
  forall i r0 err0 (s1 s2 : State env),
    agree_but_debug s1 s2 ->
    match SendRequest_loop fuel req i r0 err0 s1,
          SendRequest_loop fuel req i r0 err0 s2 with
    | Some (res1, s1'), Some (res2, s2') =>
      res1 = res2 /\ agree_but_debug s1' s2'
    | None, None => True
    | _, _ => False
    end.
Proof.
  induction fuel as [|fuel IH]; intros i r0 err0 s1 s2 Hagree; [exact I|].
  simpl. pose proof Hagree as [_ [_ [Hm [Ht _]]]]. rewrite Hm.
  destruct (i <=? MaxRetries (client s2)); [|auto].
  destruct (send_agree req s1 s2 Hagree) as [Hres Hagree'].
  destruct (send req s1) as [[r1 e1] s1'], (send req s2) as [[r2 e2] s2'].
  simpl in *. inversion Hres; subst.
  destruct e2 as [e2|]; [|auto].
  pose proof Hagree' as [_ [_ [_ [Ht' _]]]]. rewrite Ht'.
  exact (IH _ _ _ _ _ (sleep_agree (RetryDelay (client s2')) _ _ Hagree')).
Qed.

(** X14.  Logging is observation only: with [Debug] on or off, one call of
    [send] returns the same result, leaves the same outside world, and makes
    the same calls in the same order; the printed lines are the only
    difference. *)
Theorem send_debug_observation_only req s :
  fst (send req (with_Debug true s)) = fst (send req (with_Debug false s)) /\
  world (snd (send req (with_Debug true s))) =
  world (snd (send req (with_Debug false s))) /\
  filter (fun e => negb (is_printf e)) (send_events req (with_Debug true s)) =
  send_events req (with_Debug false s).
Proof.
  rewrite (send_with_trace req (with_Debug true s)),
    (send_with_trace req (with_Debug false s)).
  unfold send_events, with_trace, with_Debug.
  run_send; rewrite ?filter_app; simpl; repeat split; congruence.
Qed.

(** X15.  The same for the whole of [SendRequest]: with [Debug] on or off it
    returns (or fails to return) alike, with the same response and error,
    the same outside world and the same calls and sleeps. *)
Theorem SendRequest_debug_observation_only req s fuel :
  match SendRequest fuel req (with_Debug true s),
        SendRequest fuel req (with_Debug false s) with
  | Some (res1, s1), Some (res2, s2) =>
    res1 = res2 /\
    world s1 = world s2 /\
    filter (fun e => negb (is_printf e)) (trace s1) =
    filter (fun e => negb (is_printf e)) (trace s2)
  | None, None => True
  | _, _ => False
  end.
Proof.
  assert (Hagree : agree_but_debug (with_Debug true s) (with_Debug false s))
    by (unfold agree_but_debug; simpl; auto 10).
  pose proof (loop_agree req fuel 0 None None _ _ Hagree) as H.
  unfold SendRequest.
  destruct (SendRequest_loop fuel req 0 None None (with_Debug true s))
    as [[res1 s1]|],
    (SendRequest_loop fuel req 0 None None (with_Debug false s))
    as [[res2 s2]|]; try exact H.
  destruct H as [Hres [_ [_ [_ [_ [Hw Htr]]]]]]. auto.
Qed.

(** ** [TestSendRequest] *)

(** X16.  Against a server that does what the handler of the test says
    (status 200, the expected body) the test passes, after one call of
    [send] and without any sleep. *)
Theorem TestSendRequest_passes
    (serverURL : string) (w : World) request0 response w1 w2 fuel :
  http_NewRequest "GET" (String.append serverURL "/") [] = inr request0 ->
  Client_Do (http.Client.mk (10 * time_Second))
    (set_headers [("Content-Type", "application/json")] request0) w =
  (inr response, w1) ->
  http.Response.StatusCode response = 200 ->
  ioutil_ReadAll (http.Response.Body response) w1 =
  (inr (list_byte_of_string expectedBody), w2) ->
  exists s',
    TestSendRequest serverURL (S fuel) w = Some (Pass, s') /\
    count is_send (trace s') = 1%nat /\
    count is_sleep (trace s') = 0%nat.
Proof.
  intros Hnew Hdo Hcode Hread.
  assert (Hsend :
            fst (send test_request (test_start serverURL w)) =
            (Some {| APIResponse.StatusCode := 200;
                     APIResponse.Headers := http.Response.Header response;
                     APIResponse.Body := list_byte_of_string expectedBody |},
             None)).
  { rewrite <- Hcode. unfold test_request, test_start.
    run_send; unfold Sprintf_ss in *; simpl in *; subst; try congruence;
      repeat match goal with
        | H1 : ?x = _, H2 : ?x = _ |- _ => rewrite H1 in H2
        | H : inr _ = inr _ |- _ => inversion H; subst; clear H
        | H : (_, _) = (_, _) |- _ => inversion H; subst; clear H
        end; try congruence; try reflexivity. }
  exists (snd (send test_request (test_start serverURL w))).
  split; [|split].
  - assert (H0 : 0 <= MaxRetries (client (test_start serverURL w)))
      by (simpl; lia).
    unfold TestSendRequest, SendRequest.
    rewrite (loop_success _ _ _ _ _ _ _ H0 Hsend).
    cbv beta iota. unfold APIResponse.StatusCode, APIResponse.Body.
    rewrite string_of_list_byte_of_string, String.eqb_refl. reflexivity.
  - rewrite send_trace, count_app, send_events_sends. reflexivity.
  - rewrite send_trace, count_app, send_events_sleeps. reflexivity.
Qed.

(** ** [NewClient] *)

(** X17.  A client built by [NewClient] makes every round trip through
    the transport with the ten-second timeout, whatever its other
    settings. *)
Theorem NewClient_round_trip_timeout
    (baseURL : string) (debug : bool) (maxRetries : Z) (retryDelay : Duration)
    req (w : World) (t : list (event env)) hc request :
  In (EvDo hc request)
     (send_events req
        {| client := NewClient baseURL debug maxRetries retryDelay;
           world := w;
           trace := t |}) ->
  http.Client.Timeout hc = 10000000000.
Proof.
  intros Hdo. destruct (send_do_request _ _ _ _ Hdo) as [Hhc _].
  subst hc. reflexivity.
Qed.

(** ** The order in which [range] visits the headers *)

Lemma find_canonical_absent k0 (hs : list (string * string)) :
  ~ In k0 (map (fun kv => CanonicalMIMEHeaderKey (fst kv)) hs) ->
  find (fun kv => String.eqb (CanonicalMIMEHeaderKey (fst kv)) k0) hs = None.
Proof.
  induction hs as [|kv hs IH]; simpl; intros Hnot; [reflexivity|].
  destruct (String.eqb_spec (CanonicalMIMEHeaderKey (fst kv)) k0) as [Heq|_].
  - exfalso. apply Hnot. left. exact Heq.
  - apply IH. intros Hin. apply Hnot. right. exact Hin.
Qed.

(** When the canonical forms of the keys differ pairwise, each of them
    holds the value of its one entry after the loop. *)
Lemma set_headers_lookup_NoDup (hs : list (string * string)) :
  NoDup (map (fun kv => CanonicalMIMEHeaderKey (fst kv)) hs) ->
  forall (request : http.Request.t) k0,
    Header_lookup k0 (http.Request.Header (set_headers hs request)) =
    match find (fun kv => String.eqb (CanonicalMIMEHeaderKey (fst kv)) k0) hs
    with
    | Some kv => Some [snd kv]
    | None => Header_lookup k0 (http.Request.Header request)
    end.
Proof.
  induction hs as [|kv hs IH]; intros Hnd request k0; [reflexivity|].
  simpl map in Hnd. inversion Hnd as [|k ks Hnot Hnd']; subst.
  rewrite set_headers_cons, (IH Hnd'). simpl find.
  destruct (String.eqb_spec (CanonicalMIMEHeaderKey (fst kv)) k0) as [Heq|Hne].
  - subst k0. rewrite (find_canonical_absent _ _ Hnot). simpl.
    apply Header_lookup_Set_same.
  - destruct (find _ hs); [reflexivity|]. simpl.
    apply Header_lookup_Set_other. congruence.
Qed.

Lemma find_canonical_perm k0 (hs hs' : list (string * string)) :
  Permutation hs hs' ->
  NoDup (map (fun kv => CanonicalMIMEHeaderKey (fst kv)) hs) ->
  find (fun kv => String.eqb (CanonicalMIMEHeaderKey (fst kv)) k0) hs =
  find (fun kv => String.eqb (CanonicalMIMEHeaderKey (fst kv)) k0) hs'.
Proof.
  intros Hperm. induction Hperm as [|x l l' _ IH|x y l|l l' l'' H1 IH1 H2 IH2];
    intros Hnd.
  - reflexivity.
  - simpl. simpl map in Hnd. inversion Hnd; subst.
    rewrite IH by assumption. reflexivity.
  - simpl. simpl map in Hnd.
    inversion Hnd as [|k ks Hnot Hnd']; subst. simpl in Hnot.
    destruct (String.eqb_spec (CanonicalMIMEHeaderKey (fst x)) k0) as [Hx|_];
      destruct (String.eqb_spec (CanonicalMIMEHeaderKey (fst y)) k0) as [Hy|_];
      try reflexivity.
    exfalso. apply Hnot. left. congruence.
  - rewrite IH1 by assumption. apply IH2.
    apply (Permutation_NoDup
             (Permutation_map (fun kv => CanonicalMIMEHeaderKey (fst kv)) H1)).
    exact Hnd.
Qed.

(** Then the request that leaves the loop is the same Go request in
    whatever order the entries were visited. *)
Lemma set_headers_perm (hs hs' : list (string * string))
    (request : http.Request.t) :
  Permutation hs hs' ->
  NoDup (map (fun kv => CanonicalMIMEHeaderKey (fst kv)) hs) ->
  Request_same (set_headers hs request) (set_headers hs' request).
Proof.
  intros Hperm Hnd.
  assert (Hnd' : NoDup (map (fun kv => CanonicalMIMEHeaderKey (fst kv)) hs'))
    by (apply (Permutation_NoDup
                 (Permutation_map
                    (fun kv => CanonicalMIMEHeaderKey (fst kv)) Hperm));
        exact Hnd).
  destruct (set_headers_fields hs request) as [Hm [Hu Hb]].
  destruct (set_headers_fields hs' request) as [Hm' [Hu' Hb']].
  unfold Request_same. rewrite Hm, Hu, Hb, Hm', Hu', Hb'.
  repeat split. intros key.
  rewrite (set_headers_lookup_NoDup hs Hnd),
    (set_headers_lookup_NoDup hs' Hnd'),
    (find_canonical_perm key hs hs' Hperm Hnd).
  reflexivity.
Qed.

Lemma send_same_request req req' s s' :
  (forall hc r r' w, Request_same r r' -> Client_Do hc r w = Client_Do hc r' w) ->
  same_request req req' ->
  NoDup (canonical_keys req) ->
  client s = client s' ->
  world s = world s' ->
  fst (send req s) = fst (send req' s') /\
  world (snd (send req s)) = world (snd (send req' s')).
Proof.
  intros Hdo [Hm [He [Hb Hperm]]] Hnd Hc Hw.
  assert (Heq : forall hc request w,
             Client_Do hc (set_headers (APIRequest.Headers req) request) w =
             Client_Do hc (set_headers (APIRequest.Headers req') request) w)
    by (intros hc request w; apply Hdo, set_headers_perm; assumption).
  destruct s as [c w t], s' as [c' w' t']. simpl in Hc, Hw. subst c' w'.
  unfold send, logRequest, logResponse, Do, ReadAll, Close, Printf,
    bind, ret, field, emit, extern.
  simpl. rewrite <- Hm, <- He, <- Hb.
  repeat (rewrite ?Heq;
          match goal with
          | |- context [match ?x with _ => _ end] =>
            lazymatch x with
            | context [match _ with _ => _ end] => fail
            | _ => destruct x eqn:?; simpl in *
            end
          end);
    split; congruence.
Qed.

(** C9 (as amended).  Neither [send] nor [SendRequest] changes the client.
    And two calls of [send] made with the same client, the same outside
    world and the same request return the same result and leave the same
    world, in whatever orders the two [range] loops visit the headers and
    whatever happened before, provided the canonical forms of the header
    keys differ pairwise (the transport seeing a request by its method, URL,
    body and header map). *)
Theorem send_leaves_client_and_is_deterministic req req' s s' :
  client (snd (send req s)) = client s /\
  (forall fuel r s1,
      SendRequest fuel req s = Some (r, s1) -> client s1 = client s) /\
  ((forall hc r r' w,
       Request_same r r' -> Client_Do hc r w = Client_Do hc r' w) ->
   same_request req req' ->
   NoDup (canonical_keys req) ->
   client s = client s' ->
   world s = world s' ->
   fst (send req s) = fst (send req' s') /\
   world (snd (send req s)) = world (snd (send req' s'))).
Proof.
  split; [apply send_client|]. split.
  - intros fuel r s1 Hloop. exact (loop_client _ _ _ _ _ _ _ _ Hloop).
  - apply send_same_request.
Qed.

End MoreProperties.

(** * The further properties on concrete runs *)

Lemma NewClient_round_trip_timeout_witness :
  http.Client.Timeout (http.Client.mk (10 * time_Second)) = 10000000000.
Proof.
  apply (NewClient_round_trip_timeout (env := Scripted.env)
           "https://api.example.com" false 2 (2 * time_Second)
           scripted_accept
           [Scripted.Reply "200 OK" 200 (inr [])] []
           (http.Client.mk (10 * time_Second)) scripted_accept_sent).
  vm_compute. auto.
Defined.

Lemma send_headers_reach_transport_witness :
  Header_lookup "Accept"
    (http.Request.Header scripted_accept_sent) =
  Some ["application/json"].
Proof.
  apply (send_headers_reach_transport (env := Scripted.env)
           scripted_accept scripted_ready
           (http.Client.mk (10 * time_Second)) scripted_accept_sent
           [("Accept", "text/plain")] "Accept" "application/json" []).
  - vm_compute. auto.
  - reflexivity.
  - intros kv [].
Defined.

Lemma send_keeps_built_request_witness :
  exists reqBody request0,
    http_NewRequest (Env := Scripted.env) "GET"
      "https://api.example.com/data" reqBody = inr request0 /\
    http.Request.Method scripted_accept_sent = http.Request.Method request0 /\
    http.Request.URL scripted_accept_sent = http.Request.URL request0 /\
    http.Request.Body scripted_accept_sent = http.Request.Body request0 /\
    forall k0,
      (forall kv, In kv (APIRequest.Headers scripted_accept) ->
                  CanonicalMIMEHeaderKey (Env := Scripted.env) (fst kv) <> k0) ->
      Header_lookup k0
        (http.Request.Header scripted_accept_sent) =
      Header_lookup k0 (http.Request.Header request0).
Proof.
  apply (send_keeps_built_request (env := Scripted.env)
           scripted_accept scripted_ready
           (http.Client.mk (10 * time_Second)) scripted_accept_sent).
  vm_compute. auto.
Defined.

Lemma send_debug_lines_witness :
  Debug (client scripted_verbose) = true /\
  List.length (printed (send_events Scripted.post scripted_verbose)) = 7%nat /\
  Debug (client scripted_truncated) = true /\
  List.length (printed (send_events Scripted.post scripted_truncated)) = 4%nat.
Proof.
  split; [reflexivity|]. split.
  - exact (send_debug_lines (env := Scripted.env)
             Scripted.post scripted_verbose eq_refl).
  - split; [reflexivity|].
    exact (send_debug_lines (env := Scripted.env)
             Scripted.post scripted_truncated eq_refl).
Defined.

Lemma send_debug_output_witness :
  printed (send_events Scripted.post scripted_verbose) =
  [ Sprintf_line "Request Method: " "POST";
    Sprintf_line "Request URL: " "https://api.example.com/data";
    Sprintf_line "Request Headers: " "map[]";
    Sprintf_line "Request Body: " "{}";
    Sprintf_line "Response Status: " "404 Not Found";
    Sprintf_line "Response Headers: " "map[]";
    Sprintf_line "Response Body: " "" ].
Proof.
  apply (send_debug_output (env := Scripted.env)
           Scripted.post scripted_verbose
           (list_byte_of_string "{}")
           (http.Request.mk "POST" "https://api.example.com/data" []
              (list_byte_of_string "{}"))
           (http.Response.mk "404 Not Found" 404 [] (inr []))
           [] [] []).
  - reflexivity.
  - reflexivity.
  - reflexivity.
  - reflexivity.
  - reflexivity.
Defined.

Lemma SendRequest_returns_witness :
  MaxRetries (client Scripted.recovering) < maxInt /\
  exists res s',
    forall fuel,
      (Z.to_nat (MaxRetries (client Scripted.recovering)) + 2 <= fuel)%nat ->
      SendRequest fuel Scripted.post Scripted.recovering = Some (res, s').
Proof.
  assert (H : MaxRetries (client Scripted.recovering) < maxInt)
    by (rewrite maxInt_eq; simpl; lia).
  split; [exact H|].
  exact (SendRequest_returns Scripted.post Scripted.recovering H).
Defined.

Lemma SendRequest_attempt_bounds_witness :
  exists k : nat,
    count is_send (trace scripted_flaky_end) =
    (count is_send (trace Scripted.flaky) + k)%nat /\
    (1 <= k)%nat /\
    Z.of_nat k <= MaxRetries (client Scripted.flaky) + 1 /\
    (Some "unexpected EOF" <> None ->
     Z.of_nat k = MaxRetries (client Scripted.flaky) + 1) /\
    (count is_do (trace scripted_flaky_end) <=
     count is_do (trace Scripted.flaky) + k)%nat.
Proof.
  apply (SendRequest_attempt_bounds (env := Scripted.env)
           Scripted.post Scripted.flaky 3 None (Some "unexpected EOF")
           scripted_flaky_end).
  - rewrite maxInt_eq. simpl. lia.
  - reflexivity.
Defined.

Lemma SendRequest_result_shape_witness :
  (MaxRetries (client Scripted.recovering) < 0 /\
   Some (APIResponse.mk 200 [] []) = None /\ @None string = None) \/
  (0 <= MaxRetries (client Scripted.recovering) /\
   ((Some (APIResponse.mk 200 [] []) <> None /\ @None string = None) \/
    (Some (APIResponse.mk 200 [] []) = None /\ @None string <> None))).
Proof.
  apply (SendRequest_result_shape (env := Scripted.env)
           Scripted.post Scripted.recovering 2
           (Some (APIResponse.mk 200 [] [])) None scripted_recovering_end).
  reflexivity.
Defined.

Lemma SendRequest_one_sleep_per_failure_witness :
  exists k : nat,
    filter is_sleep (trace scripted_flaky_end) =
    filter is_sleep (trace Scripted.flaky) ++
    repeat (EvSleep (RetryDelay (client Scripted.flaky))) k /\
    count is_send (trace scripted_flaky_end) =
    (count is_send (trace Scripted.flaky) + k + 0)%nat.
Proof.
  apply (SendRequest_one_sleep_per_failure (env := Scripted.env)
           Scripted.post Scripted.flaky 3 None (Some "unexpected EOF")
           scripted_flaky_end).
  - simpl. lia.
  - reflexivity.
Defined.

Lemma SendRequest_preflight_failure_witness :
  exists s',
    (forall fuel,
        (Z.to_nat (MaxRetries (client scripted_ready)) + 2 <= fuel)%nat ->
        SendRequest fuel scripted_bad_method scripted_ready =
        Some ((None, Some "net/http: invalid method"), s')) /\
    world s' = world scripted_ready /\
    count is_do (trace s') = count is_do (trace scripted_ready) /\
    count is_send (trace s') =
    (count is_send (trace scripted_ready) +
     (Z.to_nat (MaxRetries (client scripted_ready)) + 1))%nat /\
    count is_sleep (trace s') =
    (count is_sleep (trace scripted_ready) +
     (Z.to_nat (MaxRetries (client scripted_ready)) + 1))%nat.
Proof.
  apply (SendRequest_preflight_failure (env := Scripted.env)
           scripted_bad_method scripted_ready "net/http: invalid method").
  - rewrite maxInt_eq. simpl. lia.
  - reflexivity.
Defined.


Lemma SendRequest_maxInt_never_gives_up_witness :
  @None string = None /\ Some (APIResponse.mk 200 [] []) <> None.
Proof.
  apply (SendRequest_maxInt_never_gives_up (env := Scripted.env)
           Scripted.post scripted_forever 3
           (Some (APIResponse.mk 200 [] [])) None
           (snd (send Scripted.post
                   (failed_round Scripted.post
                      (failed_round Scripted.post scripted_forever))))).
  - reflexivity.
  - reflexivity.
Defined.

Lemma TestSendRequest_passes_witness :
  exists s',
    TestSendRequest (env := Scripted.env) "http://127.0.0.1:8080" 1
      scripted_test_server = Some (Pass, s') /\
    count is_send (trace s') = 1%nat /\
    count is_sleep (trace s') = 0%nat.
Proof.
  apply (TestSendRequest_passes (env := Scripted.env)
           "http://127.0.0.1:8080" scripted_test_server
           (http.Request.mk "GET" "http://127.0.0.1:8080/" [] [])
           (http.Response.mk "200 OK" 200 []
              (inr (list_byte_of_string expectedBody)))
           [] [] 0).
  - reflexivity.
  - reflexivity.
  - reflexivity.
  - reflexivity.
Defined.

(** * The order of the headers on concrete runs *)

Lemma echo_do_same_request hc r r' (w : @World Echo.env) :
  Request_same r r' ->
  Client_Do (Env := Echo.env) hc r w = Client_Do (Env := Echo.env) hc r' w.
Proof.
  intros [_ [_ [_ Hheaders]]]. simpl. unfold Echo.do.
  rewrite (Hheaders "Accept"). reflexivity.
Qed.

Lemma send_leaves_client_and_is_deterministic_witness :
  fst (send Echo.trace_first Echo.start) =
  fst (send Echo.trace_last
         (with_trace [@EvSleep Echo.env time_Second] Echo.start)) /\
  world (snd (send Echo.trace_first Echo.start)) =
  world (snd (send Echo.trace_last
                (with_trace [@EvSleep Echo.env time_Second] Echo.start))).
Proof.
  apply (proj2 (proj2 (send_leaves_client_and_is_deterministic
                         (env := Echo.env)
                         Echo.trace_first Echo.trace_last Echo.start
                         (with_trace [@EvSleep Echo.env time_Second]
                            Echo.start)))).
  - exact echo_do_same_request.
  - repeat split; try reflexivity. simpl. apply perm_swap.
  - unfold canonical_keys. simpl.
    repeat constructor; simpl; intuition discriminate.
  - reflexivity.
  - reflexivity.
Defined.

(** C9, as stated, fails when two header keys have the same canonical
    form.  [Echo.lower_first] and [Echo.upper_first] are one request, its
    header map with the keys [accept] and [Accept] visited in the two
    possible orders; in the same state, against a transport that sees a
    request by its header map only, [send] returns the body
    [application/json] for the one order and [text/plain] for the other. *)
Lemma send_range_order_matters :
  (forall hc r r' (w : @World Echo.env),
      Request_same r r' ->
      Client_Do (Env := Echo.env) hc r w = Client_Do (Env := Echo.env) hc r' w) /\
  same_request Echo.lower_first Echo.upper_first /\
  NoDup (map fst (APIRequest.Headers Echo.lower_first)) /\
  fst (send Echo.lower_first Echo.start) =
  (Some (APIResponse.mk 200 [] (list_byte_of_string "application/json")),
   None) /\
  fst (send Echo.upper_first Echo.start) =
  (Some (APIResponse.mk 200 [] (list_byte_of_string "text/plain")), None) /\
  fst (send Echo.lower_first Echo.start) <>
  fst (send Echo.upper_first Echo.start).
Proof.
  split; [exact echo_do_same_request|].
  split; [repeat split; try reflexivity; simpl; apply perm_swap|].
  split; [simpl; repeat constructor; simpl; intuition discriminate|].
  split; [reflexivity|]. split; [reflexivity|].
  vm_compute. intros H. discriminate H.
Qed.
